(** * SaveIT: the search-and-ranking pipeline and the item store

    A shallow embedding of

    - [normalizeTopic] and the [filteredItems] memo of the [App] component
      (category filter, text filter, two-pass ranking, limit), which
      src/components/ItemCard.tsx holds after the card component,
    - the intent-extraction effect of [App] together with [getSearchIntent],
      which src/services/apiService.ts holds after the store,
    - [backendAPI.items.save] and [backendAPI.items.updateEnrichment] of
      src/services/apiService.ts over the IndexedDB object store keyed by [id],

    followed by the properties of these functions.

    Conventions of the embedding.

    - A JavaScript string is the list of its UTF-16 code units, a code unit is
      an [N].
    - [dateAdded], [sequenceNumber], [engagementScore] and [limit] are integral
      JavaScript numbers; they are embedded as [Z], on which the subtraction
      comparators of [Array.prototype.sort] are exact.
    - [String.prototype.toLowerCase] and [toUpperCase] are a parameter of the
      pipeline (class [Casing]); the instance [ecma_casing] gives them for
      Basic Latin and the Latin-1 Supplement, the range of the examples.
    - [Array.prototype.sort] is stable (ECMAScript 2019).  For a consistent
      comparator the stable sorted arrangement is unique, and it is computed
      here by a stable insertion sort. *)

From Stdlib Require Import ZArith NArith List Bool Lia String Ascii.
From Stdlib Require Import Sorting.Sorted Sorting.Permutation.
From stdpp Require Import gmap list fin_maps.

Local Open Scope Z_scope.

(* ===================================================================== *)
(** * JavaScript strings *)
(* ===================================================================== *)

Module JS.

Abbreviation jsstring := (list N).

(** A source literal, as code units. *)
Definition lit (s : string) : jsstring :=
  List.map N_of_ascii (list_ascii_of_string s).
Arguments lit s%_string.

(** WhiteSpace and LineTerminator code units: what [trim] strips and what the
    regular expression class [\s] matches. *)
Definition isWhiteSpace (c : N) : bool :=
  ((9 <=? c) && (c <=? 13) || (c =? 32) || (c =? 160) || (c =? 5760)
   || (8192 <=? c) && (c <=? 8202) || (c =? 8232) || (c =? 8233)
   || (c =? 8239) || (c =? 8287) || (c =? 12288) || (c =? 65279))%N.

Fixpoint trimStart (s : jsstring) : jsstring :=
  match s with
  | [] => []
  | c :: s' => if isWhiteSpace c then trimStart s' else s
  end.

Definition trimEnd (s : jsstring) : jsstring := rev (trimStart (rev s)).

Definition trim (s : jsstring) : jsstring := trimEnd (trimStart s).

(** [s.startsWith(w)] and [s.includes(w)]. *)
Fixpoint startsWith (s w : jsstring) {struct w} : bool :=
  match w, s with
  | [], _ => true
  | _ :: _, [] => false
  | c :: w', d :: s' => (c =? d)%N && startsWith s' w'
  end.

Fixpoint includes (s w : jsstring) : bool :=
  startsWith s w ||
  match s with
  | [] => false
  | _ :: s' => includes s' w
  end.

(** [a === b] on strings. *)
Definition strictEq (a b : jsstring) : bool := bool_decide (a = b).

(** [s.charAt(0)] and [s.slice(1)]. *)
Definition charAt0 (s : jsstring) : jsstring :=
  match s with
  | [] => []
  | c :: _ => [c]
  end.

Definition slice1 (s : jsstring) : jsstring := tl s.

(** [a.join(' ')]. *)
Fixpoint join_space (a : list jsstring) : jsstring :=
  match a with
  | [] => []
  | [x] => x
  | x :: rest => x ++ 32%N :: join_space rest
  end.

(** [s.split(/\s+/)]: the pieces between the maximal runs of white space.
    [inRun] tells that the previous code unit belonged to a separator, [cur]
    is the piece being read, reversed. *)
Fixpoint split_runs (inRun : bool) (cur : jsstring) (s : jsstring)
  : list jsstring :=
  match s with
  | [] => [rev cur]
  | c :: s' =>
      if isWhiteSpace c
      then if inRun then split_runs true cur s'
           else rev cur :: split_runs true [] s'
      else split_runs false (c :: cur) s'
  end.

Definition split_ws (s : jsstring) : list jsstring := split_runs false [] s.

(** A non-empty string that neither starts nor ends with white space. *)
Definition solid (x : jsstring) : bool :=
  match x, rev x with
  | a :: _, b :: _ => negb (isWhiteSpace a) && negb (isWhiteSpace b)
  | _, _ => false
  end.

(** Truthiness of a string. *)
Definition truthy (s : jsstring) : bool :=
  match s with
  | [] => false
  | _ => true
  end.

(** The two case conversions. *)
Class Casing := {
  toLowerCase : jsstring -> jsstring;
  toUpperCase : jsstring -> jsstring
}.

(** Unicode case mapping of one code unit of U+0000..U+00FF.  Lower-casing
    maps a unit to a unit.  Upper-casing does not: U+00DF (sharp s) becomes
    the two units "SS"; U+00FF becomes U+0178 and U+00B5 becomes U+039C. *)
Definition lowerUnit (c : N) : N :=
  (if (65 <=? c) && (c <=? 90) then c + 32
   else if (192 <=? c) && (c <=? 222) && negb (c =? 215) then c + 32
   else c)%N.

Definition upperUnit (c : N) : jsstring :=
  (if (97 <=? c) && (c <=? 122) then [c - 32]
   else if (224 <=? c) && (c <=? 254) && negb (c =? 247) then [c - 32]
   else if c =? 223 then [83; 83]
   else if c =? 255 then [376]
   else if c =? 181 then [924]
   else [c])%N.

Definition ecma_casing : Casing := {|
  toLowerCase := fun s => List.map lowerUnit s;
  toUpperCase := fun s => flat_map upperUnit s
|}.

(** Strings of Basic Latin (ASCII) code units. *)
Definition isAscii (s : jsstring) : Prop := Forall (fun c => (c < 128)%N) s.

End JS.

Import JS.

(* ===================================================================== *)
(** * Topic normalizer *)
(* ===================================================================== *)

Section Normalizer.
Context {casing : Casing}.

(** [normalizeTopic]. *)
Definition normalizeTopic (topic : jsstring) : jsstring :=
  let t := trim (toLowerCase topic) in
  if includes t (lit "finance") || includes t (lit "invest")
     || includes t (lit "money") || includes t (lit "trading")
  then lit "Finance"
  else if includes t (lit "gym") || includes t (lit "workout")
          || includes t (lit "fitness") || includes t (lit "exercise")
  then lit "Fitness"
  else if includes t (lit "recipe") || includes t (lit "cooking")
          || includes t (lit "food") || includes t (lit "baking")
          || includes t (lit "meal")
  then lit "Food"
  else if includes t (lit "tech") || includes t (lit "software")
          || includes t (lit "programming") || includes t (lit "ai")
          || includes t (lit "coding")
  then lit "Tech"
  else if includes t (lit "travel") || includes t (lit "vacation")
          || includes t (lit "trip") || includes t (lit "place")
  then lit "Travel"
  else if includes t (lit "fashion") || includes t (lit "style")
          || includes t (lit "outfit")
  then lit "Fashion"
  else toUpperCase (charAt0 topic) ++ toLowerCase (slice1 topic).

(** The last branch of [normalizeTopic]:
    [topic.charAt(0).toUpperCase() + topic.slice(1).toLowerCase()]. *)
Definition capitalize (topic : jsstring) : jsstring :=
  toUpperCase (charAt0 topic) ++ toLowerCase (slice1 topic).

End Normalizer.

(** The ordered table of canonical categories with their trigger substrings,
    as the specification lists it. *)
Definition triggerTable : list (jsstring * list jsstring) :=
  [(lit "Finance", [lit "finance"; lit "invest"; lit "money"; lit "trading"]);
   (lit "Fitness", [lit "gym"; lit "workout"; lit "fitness"; lit "exercise"]);
   (lit "Food",
    [lit "recipe"; lit "cooking"; lit "food"; lit "baking"; lit "meal"]);
   (lit "Tech",
    [lit "tech"; lit "software"; lit "programming"; lit "ai"; lit "coding"]);
   (lit "Travel", [lit "travel"; lit "vacation"; lit "trip"; lit "place"]);
   (lit "Fashion", [lit "fashion"; lit "style"; lit "outfit"])].

(** The labels of the table, in its order. *)
Definition canonicalTopics : list jsstring := List.map fst triggerTable.

(** The first category of the table one of whose triggers occurs in [t]. *)
Definition classify (t : jsstring) : option jsstring :=
  match List.find (fun row => existsb (fun x => includes t x) (snd row))
                  triggerTable with
  | Some row => Some (fst row)
  | None => None
  end.

Section NormalizerByTable.
Context {casing : Casing}.

(** The normalizer in the words of the specification: look the lower-cased,
    trimmed topic up in the table; without a match, capitalize the topic. *)
Definition normalizeByTable (topic : jsstring) : jsstring :=
  match classify (trim (toLowerCase topic)) with
  | Some label => label
  | None => capitalize topic
  end.

End NormalizerByTable.

(* ===================================================================== *)
(** * Data model: types.ts and the response interfaces *)
(* ===================================================================== *)

Inductive Platform := INSTAGRAM | YOUTUBE | UNKNOWN.

Record DebugMetadata := {
  ogTitle : jsstring;
  ogDescription : jsstring;
  ogImage : jsstring;
  authorName : jsstring;
  platformHeaders : list (jsstring * jsstring);
  rawResponse : jsstring
}.

(** [SavedItem]. *)
Module Item.
Record t := mk {
  id : jsstring;
  url : jsstring;
  title : jsstring;
  description : jsstring;
  thumbnail : jsstring;
  creator : jsstring;
  platform : Platform;
  tags : list jsstring;
  topic : jsstring;
  summary : jsstring;
  dateAdded : Z;
  sequenceNumber : Z;
  engagementScore : Z;
  debugInfo : option DebugMetadata;
  isEnriching : option bool
}.

(** [item.sequenceNumber = n], the assignment of [save]. *)
Definition with_sequenceNumber (n : Z) (i : t) : t :=
  mk (id i) (url i) (title i) (description i) (thumbnail i) (creator i)
     (platform i) (tags i) (topic i) (summary i) (dateAdded i) n
     (engagementScore i) (debugInfo i) (isEnriching i).
End Item.

Abbreviation SavedItem := Item.t.

Inductive SortBy := DateDesc | DateAsc | EngagementDesc | SequenceDesc.

(** [SearchIntentResponse]. *)
Module Intent.
Record t := mk {
  keywords : list jsstring;
  topics : list jsstring;
  intent : jsstring;
  sortBy : option SortBy;
  limit : option Z
}.
End Intent.

Abbreviation SearchIntentResponse := Intent.t.

(** [AIEnrichmentResponse]. *)
Module Enrichment.
Record t := mk {
  tags : list jsstring;
  topic : jsstring;
  summary : jsstring;
  suggestedTitle : option jsstring;
  engagementScore : option Z
}.
End Enrichment.

Abbreviation AIEnrichmentResponse := Enrichment.t.

(** A saved reel with the given id, title, topic, tags, dateAdded,
    sequenceNumber and engagementScore, for the examples. *)
Definition reel (id title topic : string) (tags : list jsstring)
  (dateAdded sequenceNumber engagementScore : Z) : SavedItem :=
  Item.mk (lit id) (lit "https://www.instagram.com/reel/x") (lit title)
    [] [] (lit "@creator") INSTAGRAM tags (lit topic) []
    dateAdded sequenceNumber engagementScore None (Some false).

(** [x || 0] on a number. *)
Definition orZero (x : Z) : Z := if x =? 0 then 0 else x.

(* ===================================================================== *)
(** * Array.prototype.sort *)
(* ===================================================================== *)

Section Sort.
Context {A : Type} (compareFn : A -> A -> Z).

(** [x] stood before every element of [l]; it stays before the first one it
    does not compare greater than. *)
Fixpoint sort_insert (x : A) (l : list A) : list A :=
  match l with
  | [] => [x]
  | y :: l' => if compareFn x y <=? 0 then x :: l else y :: sort_insert x l'
  end.

Fixpoint sort (l : list A) : list A :=
  match l with
  | [] => []
  | x :: l' => sort_insert x (sort l')
  end.

End Sort.

(* ===================================================================== *)
(** * The filteredItems pipeline *)
(* ===================================================================== *)

Section Pipeline.
Context {casing : Casing}.

(** Stage 1, the predicate of the label filter. *)
Definition matchesCategory (activeFilter : jsstring) (item : SavedItem) : bool :=
  let normItemTopic := toLowerCase (normalizeTopic (Item.topic item)) in
  strictEq normItemTopic (toLowerCase activeFilter)
  || existsb (fun t => strictEq (toLowerCase (normalizeTopic t))
                                (toLowerCase activeFilter))
             (Item.tags item).

Definition categoryStage (activeFilter : jsstring) (result : list SavedItem)
  : list SavedItem :=
  if negb (strictEq activeFilter (lit "all"))
  then List.filter (matchesCategory activeFilter) result
  else result.

(** The template literal of stage 2, lower-cased. *)
Definition searchableText (item : SavedItem) : jsstring :=
  toLowerCase (Item.title item ++ lit " " ++ Item.topic item ++ lit " "
               ++ Item.summary item ++ lit " " ++ Item.creator item ++ lit " "
               ++ join_space (Item.tags item)).

Definition queryWords (query : jsstring) : list jsstring :=
  List.filter (fun w => (0 <? length w)%nat) (split_ws query).

Definition matchesAllWords (words : list jsstring) (item : SavedItem) : bool :=
  forallb (fun word => includes (searchableText item) word) words.

Definition matchesAiKeyword (aiKeywords : list jsstring) (item : SavedItem)
  : bool :=
  existsb (fun k => includes (searchableText item) (toLowerCase k)) aiKeywords.

Definition matchesAiTopic (aiTopics : list jsstring) (item : SavedItem) : bool :=
  existsb (fun t =>
             includes (toLowerCase (normalizeTopic (Item.topic item)))
                      (toLowerCase t)
             || strictEq (toLowerCase (normalizeTopic t))
                         (toLowerCase (normalizeTopic (Item.topic item))))
          aiTopics.

(** Stage 2, the predicate of the text filter. *)
Definition matchesText (words : list jsstring)
  (searchIntent : option SearchIntentResponse) (item : SavedItem) : bool :=
  let aiKeywords := match searchIntent with
                    | Some i => Intent.keywords i
                    | None => []
                    end in
  let aiTopics := match searchIntent with
                  | Some i => Intent.topics i
                  | None => []
                  end in
  if matchesAllWords words item then true
  else match searchIntent with
       | Some _ => matchesAiKeyword aiKeywords item
                   || matchesAiTopic aiTopics item
       | None => false
       end.

Definition textStage (query : jsstring)
  (searchIntent : option SearchIntentResponse) (result : list SavedItem)
  : list SavedItem :=
  if truthy query
  then List.filter (matchesText (queryWords query) searchIntent) result
  else result.

End Pipeline.

(** [searchIntent?.sortBy || 'date-desc']. *)
Definition resolveSortMode (searchIntent : option SearchIntentResponse)
  : SortBy :=
  match searchIntent with
  | Some i => match Intent.sortBy i with
              | Some m => m
              | None => DateDesc
              end
  | None => DateDesc
  end.

(** The comparator of the first sort. *)
Definition compareRank (sortMode : SortBy) (a b : SavedItem) : Z :=
  match sortMode with
  | EngagementDesc =>
      orZero (Item.engagementScore b) - orZero (Item.engagementScore a)
  | SequenceDesc => Item.sequenceNumber b - Item.sequenceNumber a
  | DateAsc => Item.dateAdded a - Item.dateAdded b
  | DateDesc => Item.dateAdded b - Item.dateAdded a
  end.

(** The comparator of the "final stability sort". *)
Definition compareStable (sortMode : SortBy) (a b : SavedItem) : Z :=
  let primary :=
    match sortMode with
    | EngagementDesc =>
        orZero (Item.engagementScore b) - orZero (Item.engagementScore a)
    | _ => Item.sequenceNumber b - Item.sequenceNumber a
    end in
  if primary =? 0 then Item.dateAdded b - Item.dateAdded a else primary.

(** [z] has the engagementScore and the dateAdded of [x]. *)
Definition sameKeys (x z : SavedItem) : bool :=
  (Item.engagementScore z =? Item.engagementScore x)
  && (Item.dateAdded z =? Item.dateAdded x).

Definition isChronological (sortMode : SortBy) : bool :=
  match sortMode with
  | DateAsc | DateDesc => true
  | _ => false
  end.

(** Stage 3. *)
Definition rankStage (sortMode : SortBy) (result : list SavedItem)
  : list SavedItem :=
  let result := sort (compareRank sortMode) result in
  if negb (isChronological sortMode)
  then sort (compareStable sortMode) result
  else result.

(** Stage 4: [result.slice(0, limit)] when the limit is truthy and positive. *)
Definition limitStage (searchIntent : option SearchIntentResponse)
  (result : list SavedItem) : list SavedItem :=
  match searchIntent with
  | Some i => match Intent.limit i with
              | Some n => if negb (n =? 0) && (n >? 0)
                          then firstn (Z.to_nat n) result
                          else result
              | None => result
              end
  | None => result
  end.

Section Orchestration.
Context {casing : Casing}.

(** The [filteredItems] memo. *)
Definition filteredItems (items : list SavedItem) (searchQuery : jsstring)
  (activeFilter : jsstring) (searchIntent : option SearchIntentResponse)
  : list SavedItem :=
  let query := trim (toLowerCase searchQuery) in
  let result := categoryStage activeFilter items in
  let result := textStage query searchIntent result in
  let result := rankStage (resolveSortMode searchIntent) result in
  limitStage searchIntent result.

End Orchestration.

(* ===================================================================== *)
(** * Intent extraction: getSearchIntent and the debounced effect *)
(* ===================================================================== *)

(** What the two collaborators of [getSearchIntent] do on a call: the request
    [ai.models.generateContent] rejects, or it resolves and
    [JSON.parse(response.text)] throws, or it resolves and the text parses. *)
Inductive Extraction :=
  | RequestRejects
  | ResponseUnparsable (text : jsstring)
  | ResponseParsed (text : jsstring) (value : SearchIntentResponse).

(** Completion of an asynchronous call. *)
Inductive Completion (A : Type) :=
  | Resolved (a : A)
  | Rejected.
Arguments Resolved {A} a.
Arguments Rejected {A}.

(** Extraction fails when the request rejects or its response is not JSON. *)
Definition extractionFails (world : Extraction) : Prop :=
  world = RequestRejects \/ exists text, world = ResponseUnparsable text.

(** [getSearchIntent]. *)
Definition getSearchIntent (query : jsstring) (world : Extraction)
  : Completion SearchIntentResponse :=
  match world with
  | RequestRejects => Rejected
  | ResponseParsed _ value => Resolved value
  | ResponseUnparsable _ =>
      Resolved (Intent.mk [query] [] query None None)
  end.

(** The body of the debounced effect: the value given to [setSearchIntent]. *)
Definition intentEffect (searchQuery : jsstring) (world : Extraction)
  : option SearchIntentResponse :=
  let queryTrim := trim searchQuery in
  if (3 <? length queryTrim)%nat
  then match getSearchIntent queryTrim world with
       | Resolved intent => Some intent
       | Rejected => None
       end
  else None.

(* ===================================================================== *)
(** * The item store: backendAPI.items *)
(* ===================================================================== *)

(** The object store [items] with key path [id]. *)
Abbreviation Store := (gmap jsstring SavedItem).

Definition getAllItems (db : Store) : list SavedItem := (map_to_list db).*2.

(** [store.put(item)]. *)
Definition saveItem (item : SavedItem) (db : Store) : Store :=
  <[Item.id item := item]> db.

Definition deleteItem (id : jsstring) (db : Store) : Store := delete id db.

(** [all.reduce((max, i) => Math.max(max, i.sequenceNumber || 0), 0)]. *)
Definition maxSeq (all : list SavedItem) : Z :=
  fold_left (fun max i => Z.max max (orZero (Item.sequenceNumber i))) all 0.

(** [backendAPI.items.save]: the item as it is after the call (the argument
    object is assigned to in place) and the store. *)
Definition save (item : SavedItem) (db : Store) : SavedItem * Store :=
  let item :=
    if Item.sequenceNumber item =? -1
    then Item.with_sequenceNumber (maxSeq (getAllItems db) + 1) item
    else item in
  (item, saveItem item db).

(** [Array.from(new Set(a))]: the first occurrence of each value, in order. *)
Fixpoint setFrom (seen : list jsstring) (a : list jsstring) : list jsstring :=
  match a with
  | [] => []
  | x :: a' =>
      if existsb (strictEq x) seen then setFrom seen a'
      else x :: setFrom (x :: seen) a'
  end.

(** The first occurrence of each value, in order: what a [Set] built from an
    array iterates over. *)
Fixpoint firstOccurrences (a : list jsstring) : list jsstring :=
  match a with
  | [] => []
  | x :: a' =>
      x :: List.filter (fun y => negb (strictEq y x)) (firstOccurrences a')
  end.

Definition isPlaceholderTitle (title : jsstring) : bool :=
  strictEq title (lit "Instagram Reel") || strictEq title (lit "Capturing...").

(** The titles that stand for "no title yet". *)
Definition knownPlaceholder (title : jsstring) : Prop :=
  title = lit "Instagram Reel" \/ title = lit "Capturing...".

(** The object literal [updatedItem]. *)
Definition updatedItem (item : SavedItem) (aiData : AIEnrichmentResponse)
  : SavedItem :=
  Item.mk
    (Item.id item) (Item.url item)
    (match Enrichment.suggestedTitle aiData with
     | Some suggested =>
         if isPlaceholderTitle (Item.title item) && truthy suggested
         then suggested else Item.title item
     | None => Item.title item
     end)
    (Item.description item) (Item.thumbnail item) (Item.creator item)
    (Item.platform item)
    (setFrom [] (Item.tags item ++ Enrichment.tags aiData))
    (Enrichment.topic aiData)
    (Enrichment.summary aiData)
    (Item.dateAdded item) (Item.sequenceNumber item)
    (match Enrichment.engagementScore aiData with
     | Some e => if e =? 0 then Item.engagementScore item else e
     | None => Item.engagementScore item
     end)
    (Item.debugInfo item)
    (Some false).

(** [backendAPI.items.updateEnrichment]. *)
Definition updateEnrichment (id : jsstring) (aiData : AIEnrichmentResponse)
  (db : Store) : Store :=
  let all := getAllItems db in
  match List.find (fun i => strictEq (Item.id i) id) all with
  | Some item => saveItem (updatedItem item aiData) db
  | None => db
  end.

(** [M] is the maximum sequence number of the stored items, 0 for an empty
    store. *)
Definition maxSequence (db : Store) (M : Z) : Prop :=
  (getAllItems db = [] /\ M = 0)
  \/ ((exists i, In i (getAllItems db) /\ Item.sequenceNumber i = M)
      /\ forall i, In i (getAllItems db) -> Item.sequenceNumber i <= M).

(** [M] is the greatest of 0 and the stored sequence numbers. *)
Definition maxSequenceOrZero (db : Store) (M : Z) : Prop :=
  0 <= M
  /\ (forall i, In i (getAllItems db) -> Item.sequenceNumber i <= M)
  /\ (M = 0 \/ exists i, In i (getAllItems db) /\ Item.sequenceNumber i = M).

(** The store holds every item under its own [id]. *)
Definition keyed (db : Store) : Prop :=
  forall k item, db !! k = Some item -> Item.id item = k.


(* ===================================================================== *)
(** * The rest of the App component *)
(* ===================================================================== *)

Section Buttons.
Context {casing : Casing}.

(** The predicate of [rawTopics]: a topic that is set and is none of the
    placeholders. *)
Definition isCategoryTopic (topic : jsstring) : bool :=
  truthy topic
  && negb (strictEq topic (lit "Uncategorized"))
  && negb (strictEq topic (lit "Capturing..."))
  && negb (strictEq topic (lit "General")).

Definition rawTopics (items : list SavedItem) : list jsstring :=
  List.filter isCategoryTopic (List.map Item.topic items).

(** [Array.from(new Set(rawTopics.map(normalizeTopic)))]. *)
Definition normalizedTopics (items : list SavedItem) : list jsstring :=
  setFrom [] (List.map normalizeTopic (rawTopics items)).

(** A category button.  Its icon, a decoration looked up from the label, is
    not part of the record. *)
Record FilterButton := {
  buttonId : jsstring;
  buttonLabel : jsstring
}.

Definition STATIC_FILTERS : list FilterButton :=
  [{| buttonId := lit "all"; buttonLabel := lit "All" |}].

(** The [dynamicFilters] memo. *)
Definition dynamicFilters (items : list SavedItem) : list FilterButton :=
  STATIC_FILTERS
  ++ List.map (fun topic => {| buttonId := toLowerCase topic;
                               buttonLabel := topic |})
              (normalizedTopics items).

End Buttons.

(** What [handleAddSubmit] does with the input. *)
Inductive Submission :=
  | Ignored
  | Capture (url : jsstring)
  | SearchFor (query : jsstring).

(** [handleAddSubmit]: a link is captured, anything else becomes the search
    query. *)
Definition handleAddSubmit (inputValue : jsstring) : Submission :=
  let val := trim inputValue in
  if negb (truthy val) then Ignored
  else if startsWith val (lit "http") then Capture val
  else SearchFor val.

(* ===================================================================== *)
(** * metadataService.ts *)
(* ===================================================================== *)

(** The string value of a [Platform]. *)
Definition platformString (p : Platform) : jsstring :=
  match p with
  | INSTAGRAM => lit "instagram"
  | YOUTUBE => lit "youtube"
  | UNKNOWN => lit "unknown"
  end.

(** [getPlatform]. *)
Definition getPlatform (url : jsstring) : Platform :=
  if includes url (lit "youtube.com") || includes url (lit "youtu.be")
  then YOUTUBE
  else if includes url (lit "instagram.com") then INSTAGRAM
  else UNKNOWN.

(** [s.replace(/\s+/g, '')]. *)
Definition removeWhiteSpace (s : jsstring) : jsstring :=
  List.filter (fun c => negb (isWhiteSpace c)) s.

Fixpoint takeWhile (p : N -> bool) (s : jsstring) : jsstring :=
  match s with
  | [] => []
  | c :: s' => if p c then c :: takeWhile p s' else []
  end.

Fixpoint dropWhile (p : N -> bool) (s : jsstring) : jsstring :=
  match s with
  | [] => []
  | c :: s' => if p c then dropWhile p s' else s
  end.

(** The class [[a-zA-Z0-9_.]]. *)
Definition isHandleChar (c : N) : bool :=
  ((97 <=? c) && (c <=? 122) || (65 <=? c) && (c <=? 90)
   || (48 <=? c) && (c <=? 57) || (c =? 95) || (c =? 46))%N.

(** The class [[^/?]]. *)
Definition isReelIdChar (c : N) : bool := negb ((c =? 47) || (c =? 63))%N.

(** [/-\s+([a-zA-Z0-9_.]+)\s+on/] anchored at the start of [s]: the capture.
    The classes that follow one another are disjoint, so each greedy run is
    the maximal one. *)
Definition handleAt (s : jsstring) : option jsstring :=
  match s with
  | [] => None
  | c :: r =>
      if (c =? 45)%N then
        let r1 := dropWhile isWhiteSpace r in
        let handle := takeWhile isHandleChar r1 in
        let r2 := dropWhile isHandleChar r1 in
        let r3 := dropWhile isWhiteSpace r2 in
        if truthy (takeWhile isWhiteSpace r) && truthy handle
           && truthy (takeWhile isWhiteSpace r2) && startsWith r3 (lit "on")
        then Some handle
        else None
      else None
  end.

(** [description.match(/-\s+([a-zA-Z0-9_.]+)\s+on/)]: the capture of the
    leftmost match. *)
Fixpoint matchHandle (description : jsstring) : option jsstring :=
  match handleAt description with
  | Some handle => Some handle
  | None => match description with
            | [] => None
            | _ :: rest => matchHandle rest
            end
  end.

(** [/reel\/([^/?]+)/] anchored at the start of [s]. *)
Definition reelIdAt (s : jsstring) : option jsstring :=
  if startsWith s (lit "reel/")
  then let reelId := takeWhile isReelIdChar (skipn 5 s) in
       if truthy reelId then Some reelId else None
  else None.

(** [url.match(/reel\/([^/?]+)/)]. *)
Fixpoint matchReelId (url : jsstring) : option jsstring :=
  match reelIdAt url with
  | Some reelId => Some reelId
  | None => match url with
            | [] => None
            | _ :: rest => matchReelId rest
            end
  end.

(** The template [`https://picsum.photos/seed/${seed}/400/711`]. *)
Definition picsum (seed : jsstring) : jsstring :=
  lit "https://picsum.photos/seed/" ++ seed ++ lit "/400/711".

(** [x || fallback] on an optional string. *)
Definition orElse (x : option jsstring) (fallback : jsstring) : jsstring :=
  match x with
  | Some s => if truthy s then s else fallback
  | None => fallback
  end.

(** What the two fetchers return. *)
Module Fetched.
Record t := mk {
  title : jsstring;
  description : jsstring;
  creator : jsstring;
  thumbnail : jsstring
}.
End Fetched.

(** The oEmbed endpoint as [fetchYouTubeMetadata] meets it: no usable
    response (the request throws, the status is not ok, the body is not the
    expected JSON), or the three fields read from the response. *)
Inductive YouTubeFetch :=
  | YouTubeUnavailable
  | YouTubeData (title author_name thumbnail_url : jsstring).

(** The [data] object of a microlink response, by the expressions read from
    it: [data.title], [data.description], [data.image?.url],
    [data.images && data.images[0]?.url], [data.author]. *)
Module Microlink.
Record t := mk {
  title : option jsstring;
  description : option jsstring;
  image_url : option jsstring;
  first_images_url : option jsstring;
  author : option jsstring
}.
End Microlink.

Inductive InstagramFetch :=
  | InstagramUnavailable
  | InstagramData (data : Microlink.t).

(** [EnrichmentResult]. *)
Module Metadata.
Record t := mk {
  title : jsstring;
  description : jsstring;
  creator : jsstring;
  thumbnail : jsstring;
  tags : list jsstring;
  topic : jsstring;
  summary : jsstring;
  platform : Platform;
  debugInfo : DebugMetadata
}.
End Metadata.

Abbreviation EnrichmentResult := Metadata.t.

Section MetadataService.
Context {casing : Casing}.

(** [fetchYouTubeMetadata]. *)
Definition fetchYouTubeMetadata (world : YouTubeFetch) : option Fetched.t :=
  match world with
  | YouTubeData title author_name thumbnail_url =>
      Some (Fetched.mk
              title
              (lit "YouTube Content by " ++ author_name ++ lit ": " ++ title)
              (lit "@" ++ toLowerCase (removeWhiteSpace author_name))
              thumbnail_url)
  | YouTubeUnavailable => None
  end.

(** [fetchInstagramMetadata]. *)
Definition fetchInstagramMetadata (url : jsstring) (world : InstagramFetch)
  : Fetched.t :=
  match world with
  | InstagramData data =>
      let title := orElse (Microlink.title data) (lit "Instagram Reel") in
      let description := orElse (Microlink.description data) [] in
      let thumbnail :=
        orElse (Microlink.image_url data)
          (orElse (Microlink.first_images_url data) (picsum url)) in
      let creator :=
        match matchHandle description with
        | Some handle => lit "@" ++ handle
        | None =>
            match Microlink.author data with
            | Some author =>
                if truthy author
                then lit "@" ++ removeWhiteSpace (toLowerCase author)
                else lit "@instagram_user"
            | None => lit "@instagram_user"
            end
        end in
      Fetched.mk title description creator thumbnail
  | InstagramUnavailable =>
      let reelId := match matchReelId url with
                    | Some reelId => reelId
                    | None => lit "Reel"
                    end in
      Fetched.mk (lit "Instagram Reel")
        (lit "Metadata capture pending background analysis...")
        (lit "@instagram_user") (picsum reelId)
  end.

(** [fetchMetadata]; [random] is the text of [Math.random()]. *)
Definition fetchMetadata (url : jsstring) (random : jsstring)
  (youtube : YouTubeFetch) (instagram : InstagramFetch) : EnrichmentResult :=
  let platform := getPlatform url in
  let initial :=
    Fetched.mk (lit "Capturing...") (lit "Retrieving public metadata...")
      (lit "@analyzing") (picsum random) in
  let fetched :=
    match platform with
    | YOUTUBE => match fetchYouTubeMetadata youtube with
                 | Some yt => yt
                 | None => initial
                 end
    | INSTAGRAM => fetchInstagramMetadata url instagram
    | UNKNOWN => initial
    end in
  let debugInfo :=
    {| ogTitle := Fetched.title fetched;
       ogDescription := Fetched.description fetched;
       ogImage := Fetched.thumbnail fetched;
       authorName := Fetched.creator fetched;
       platformHeaders :=
         [(lit "content-type", lit "application/json");
          (lit "x-extraction-mode", lit "real-time-green-zone")];
       rawResponse :=
         lit "Fetched from " ++ platformString platform
         ++ lit " public endpoint." |} in
  Metadata.mk (Fetched.title fetched) (Fetched.description fetched)
    (Fetched.creator fetched) (Fetched.thumbnail fetched)
    [platformString platform; lit "fast-save"] (lit "Uncategorized")
    (Fetched.description fetched) platform debugInfo.

End MetadataService.

(* ===================================================================== *)
(** * Capturing a link: handleAddContent *)
(* ===================================================================== *)

(** The object literal [skeletonItem]. *)
Definition skeletonItem (tempId url : jsstring) (now : Z) : SavedItem :=
  Item.mk tempId url (lit "New Memory") (lit "Saving...") (picsum tempId)
    (lit "@capturing") UNKNOWN [lit "saving"] (lit "Capturing...")
    (lit "Capturing details...") now (-1) 0 None (Some true).

(** [{ ...skeletonItem, ...meta, isEnriching: true }]. *)
Definition metaItem (skeleton : SavedItem) (meta : EnrichmentResult)
  : SavedItem :=
  Item.mk (Item.id skeleton) (Item.url skeleton) (Metadata.title meta)
    (Metadata.description meta) (Metadata.thumbnail meta)
    (Metadata.creator meta) (Metadata.platform meta) (Metadata.tags meta)
    (Metadata.topic meta) (Metadata.summary meta) (Item.dateAdded skeleton)
    (Item.sequenceNumber skeleton) (Item.engagementScore skeleton)
    (Some (Metadata.debugInfo meta)) (Some true).

(** [{ ...existing, isEnriching: false }]. *)
Definition notEnriching (existing : SavedItem) : SavedItem :=
  Item.mk (Item.id existing) (Item.url existing) (Item.title existing)
    (Item.description existing) (Item.thumbnail existing)
    (Item.creator existing) (Item.platform existing) (Item.tags existing)
    (Item.topic existing) (Item.summary existing) (Item.dateAdded existing)
    (Item.sequenceNumber existing) (Item.engagementScore existing)
    (Item.debugInfo existing) (Some false).

(** The [catch] block of [handleAddContent]. *)
Definition recoverCapture (tempId : jsstring) (db : Store) : Store :=
  match List.find (fun i => strictEq (Item.id i) tempId) (getAllItems db) with
  | Some existing => snd (save (notEnriching existing) db)
  | None => db
  end.

(** [handleAddContent], the store operations in their order, none from
    elsewhere in between: [tempId] is [crypto.randomUUID()], [now] is
    [Date.now()], [meta] and [ai] are how [fetchMetadata] and [enrichContent]
    complete.  [save] assigns to [skeletonItem] in place, so [metaItem] is
    spread from the skeleton as saved. *)
Definition handleAddContent (tempId url : jsstring) (now : Z)
  (meta : Completion EnrichmentResult)
  (ai : Completion AIEnrichmentResponse) (db : Store) : Store :=
  let (skeleton, db) := save (skeletonItem tempId url now) db in
  match meta with
  | Resolved meta =>
      let (_, db) := save (metaItem skeleton meta) db in
      match ai with
      | Resolved aiData => updateEnrichment tempId aiData db
      | Rejected => recoverCapture tempId db
      end
  | Rejected => recoverCapture tempId db
  end.

(** The item a capture leaves in a store whose greatest sequence number,
    or 0, is [M]. *)
Definition capturedItem (tempId url : jsstring) (now : Z)
  (meta : Completion EnrichmentResult)
  (ai : Completion AIEnrichmentResponse) (M : Z) : SavedItem :=
  let skeleton :=
    Item.with_sequenceNumber (M + 1) (skeletonItem tempId url now) in
  match meta with
  | Resolved meta =>
      match ai with
      | Resolved aiData => updatedItem (metaItem skeleton meta) aiData
      | Rejected => notEnriching (metaItem skeleton meta)
      end
  | Rejected => notEnriching skeleton
  end.

(** [handleDelete]. *)
Definition handleDelete (id : jsstring) (db : Store) : Store :=
  deleteItem id db.

(** [z] has the dateAdded of [x]. *)
Definition sameDate (x z : SavedItem) : bool :=
  Item.dateAdded z =? Item.dateAdded x.

(** [z] has the sequenceNumber and the dateAdded of [x]. *)
Definition sameSequenceAndDate (x z : SavedItem) : bool :=
  (Item.sequenceNumber z =? Item.sequenceNumber x)
  && (Item.dateAdded z =? Item.dateAdded x).

(** No two stored items share a sequence number. *)
Definition distinctSequence (db : Store) : Prop :=
  forall k1 k2 i1 i2,
    db !! k1 = Some i1 -> db !! k2 = Some i2 ->
    Item.sequenceNumber i1 = Item.sequenceNumber i2 -> k1 = k2.

(** Every stored item has a sequence number that [save] gave out: 1 or
    more. *)
Definition numbered (db : Store) : Prop :=
  forall i, In i (getAllItems db) -> 1 <= Item.sequenceNumber i.

(** The stores the App produces: the object store as created, changed by
    captures and deletions. *)
Inductive produced : Store -> Prop :=
  | produced_created : produced ∅
  | produced_capture tempId url now meta ai db :
      produced db -> produced (handleAddContent tempId url now meta ai db)
  | produced_delete id db :
      produced db -> produced (handleDelete id db).

(** The items of [db'] give the category buttons that the items of [db]
    give. *)
Definition sameButtons {casing : Casing} (db' db : Store) : Prop :=
  forall b,
    In b (dynamicFilters (getAllItems db'))
    <-> In b (dynamicFilters (getAllItems db)).

(* ===================================================================== *)
(** * Relations the properties are stated with *)
(* ===================================================================== *)

(** [w] occurs in [s] as a contiguous run of code units. *)
Definition isSubstring (w s : jsstring) : Prop :=
  exists pre post, s = pre ++ w ++ post.

(** [a] stands at an earlier position of [l] than [b]. *)
Definition precedes {A : Type} (a b : A) (l : list A) : Prop :=
  exists i j, (i < j)%nat /\ l !! i = Some a /\ l !! j = Some b.

Section Words.
Context {casing : Casing}.

(** Equality up to case, as [x.toLowerCase() === y.toLowerCase()] decides. *)
Definition eqIgnoreCase (a b : jsstring) : Prop :=
  toLowerCase a = toLowerCase b.

(** Membership in the category [C], in the words of the category filter:
    the normalized topic, or the normalized form of some tag, equals [C] up
    to case; the sentinel category takes every item. *)
Definition inCategory (C : jsstring) (item : SavedItem) : Prop :=
  C = lit "all"
  \/ eqIgnoreCase (normalizeTopic (Item.topic item)) C
  \/ Exists (fun t => eqIgnoreCase (normalizeTopic t) C) (Item.tags item).

#[global] Instance inCategory_dec C item : Decision (inCategory C item).
Proof. unfold inCategory, eqIgnoreCase. apply _. Defined.

(** The fallback condition as the specification words it: the intent topic is
    normalized before the substring test, and the normalized forms are
    compared exactly. *)
Definition claimedFallback (intent : SearchIntentResponse) (item : SavedItem)
  : Prop :=
  (exists k, In k (Intent.keywords intent)
             /\ isSubstring (toLowerCase k) (searchableText item))
  \/ (exists t, In t (Intent.topics intent)
                /\ (isSubstring (normalizeTopic t)
                      (normalizeTopic (Item.topic item))
                    \/ normalizeTopic t = normalizeTopic (Item.topic item))).

(** The same, every comparison of topics taken up to case. *)
Definition claimedFallbackIgnoreCase (intent : SearchIntentResponse)
  (item : SavedItem) : Prop :=
  (exists k, In k (Intent.keywords intent)
             /\ isSubstring (toLowerCase k) (searchableText item))
  \/ (exists t, In t (Intent.topics intent)
                /\ (isSubstring (toLowerCase (normalizeTopic t))
                      (toLowerCase (normalizeTopic (Item.topic item)))
                    \/ toLowerCase (normalizeTopic t)
                       = toLowerCase (normalizeTopic (Item.topic item)))).

(** The text filter without any intent fallback. *)
Definition exactMatchOnly (query : jsstring) (result : list SavedItem)
  : list SavedItem :=
  if truthy query
  then List.filter (matchesAllWords (queryWords query)) result
  else result.

End Words.

(* ===================================================================== *)
(** * Facts about strings *)
(* ===================================================================== *)

Lemma strictEq_true a b : strictEq a b = true <-> a = b.
Proof. unfold strictEq. apply bool_decide_eq_true. Qed.

Lemma strictEq_false a b : strictEq a b = false <-> a <> b.
Proof. unfold strictEq. apply bool_decide_eq_false. Qed.

Lemma startsWith_spec s w :
  startsWith s w = true <-> exists post, s = w ++ post.
Proof.
  revert s. induction w as [|c w IH]; intros s; simpl.
  - split; [intros _; now exists s | reflexivity].
  - destruct s as [|d s].
    + split; [discriminate | intros [post H]; discriminate].
    + rewrite andb_true_iff, N.eqb_eq, IH. split.
      * intros [-> [post ->]]. now exists post.
      * intros [post H]. injection H as -> ->. split; [reflexivity | now exists post].
Qed.

Lemma includes_spec s w : includes s w = true <-> isSubstring w s.
Proof.
  unfold isSubstring. induction s as [|c s IH].
  - cbn [includes]. rewrite orb_false_r, startsWith_spec. split.
    + intros [post H]. now exists [], post.
    + intros [pre [post H]]. destruct pre; [now exists post | discriminate].
  - cbn [includes]. rewrite orb_true_iff, startsWith_spec, IH. split.
    + intros [[post H] | [pre [post H]]].
      * now exists [], post.
      * exists (c :: pre), post. simpl. now f_equal.
    + intros [pre [post H]]. destruct pre as [|d pre].
      * left. now exists post.
      * right. injection H as _ H. now exists pre, post.
Qed.

Lemma forallb_includes s ws :
  forallb (fun w => includes s w) ws = true
  <-> Forall (fun w => isSubstring w s) ws.
Proof.
  rewrite forallb_forall, List.Forall_forall.
  split; intros H w Hw; apply includes_spec, H, Hw.
Qed.

Lemma isSubstring_trans a b c :
  isSubstring a b -> isSubstring b c -> isSubstring a c.
Proof.
  intros [p1 [q1 ->]] [p2 [q2 ->]]. exists (p2 ++ p1), (q1 ++ q2).
  now rewrite <- !app_assoc.
Qed.

(** Every piece that [split] returns is cut out of the string: it is the
    piece being read followed by a prefix of what is left, or it lies in what
    is left. *)
Lemma split_runs_pieces s : forall inRun cur w,
  (inRun = true -> cur = []) ->
  In w (split_runs inRun cur s) ->
  isSubstring w s \/ exists p post, s = p ++ post /\ w = rev cur ++ p.
Proof.
  induction s as [|c s IH]; intros inRun cur w Hrun; simpl.
  - intros [<- | []]. right. exists [], [].
    split; [reflexivity | now rewrite app_nil_r].
  - destruct (isWhiteSpace c).
    + destruct inRun.
      * rewrite (Hrun eq_refl). intros Hw. left.
        apply IH in Hw as [[p [q ->]] | [p [q [-> ->]]]]; [| |reflexivity].
        -- now exists (c :: p), q.
        -- now exists [c], q.
      * intros [<- | Hw].
        -- right. exists [], (c :: s).
           split; [reflexivity | now rewrite app_nil_r].
        -- left. apply IH in Hw as [[p [q ->]] | [p [q [-> ->]]]];
             [| |reflexivity].
           ++ now exists (c :: p), q.
           ++ now exists [c], q.
    + intros Hw. apply IH in Hw as [[p [q ->]] | [p [q [-> ->]]]];
        [| |discriminate].
      * left. now exists (c :: p), q.
      * right. exists (c :: p), q. split; [reflexivity|].
        simpl. now rewrite <- app_assoc.
Qed.

Lemma queryWords_substring query w :
  In w (queryWords query) -> isSubstring w query.
Proof.
  unfold queryWords, split_ws. intros Hw. apply filter_In in Hw as [Hw _].
  apply split_runs_pieces in Hw as [H | [p [q [-> ->]]]];
    [exact H | | discriminate].
  now exists [], q.
Qed.

Lemma isSubstring_rev x s : isSubstring x s -> isSubstring (rev x) (rev s).
Proof.
  intros [pre [post ->]]. exists (rev post), (rev pre).
  now rewrite !rev_app_distr, <- app_assoc.
Qed.

Lemma trimStart_substring s : isSubstring (trimStart s) s.
Proof.
  induction s as [|c s [pre [post IH]]]; simpl.
  - now exists [], [].
  - destruct (isWhiteSpace c).
    + exists (c :: pre), post. simpl. now f_equal.
    + exists [], []. simpl. now rewrite app_nil_r.
Qed.

Lemma trim_substring s : isSubstring (trim s) s.
Proof.
  unfold trim, trimEnd.
  apply isSubstring_trans with (trimStart s); [|apply trimStart_substring].
  rewrite <- (rev_involutive (trimStart s)) at 2.
  apply isSubstring_rev, trimStart_substring.
Qed.

Lemma substring_trimStart a x s :
  isWhiteSpace a = false ->
  isSubstring (a :: x) s -> isSubstring (a :: x) (trimStart s).
Proof.
  intros Ha. induction s as [|c s IH]; intros [pre [post H]]; simpl.
  - destruct pre; discriminate.
  - destruct (isWhiteSpace c) eqn:Hc; [|now exists pre, post].
    destruct pre as [|d pre].
    + injection H as -> _. congruence.
    + injection H as _ H. apply IH. now exists pre, post.
Qed.

(** A solid string that occurs in [s] occurs in [s.trim()]. *)
Lemma substring_trim x s :
  solid x = true -> isSubstring x s -> isSubstring x (trim s).
Proof.
  unfold solid. destruct x as [|a x]; [discriminate|].
  destruct (rev (a :: x)) as [|b y] eqn:Er; [discriminate|].
  rewrite andb_true_iff, !negb_true_iff. intros [Ha Hb] H.
  unfold trim, trimEnd.
  rewrite <- (rev_involutive (a :: x)), Er.
  apply isSubstring_rev, substring_trimStart; [exact Hb|].
  rewrite <- Er. apply isSubstring_rev. now apply substring_trimStart.
Qed.

Lemma classify_Some u c :
  classify u = Some c ->
  exists xs x, In (c, xs) triggerTable /\ In x xs /\ includes u x = true.
Proof.
  unfold classify.
  destruct (List.find _ _) as [[c' xs]|] eqn:E; [|discriminate].
  intros [= <-]. apply find_some in E as [Hin Hex].
  apply existsb_exists in Hex as [x [Hx Hi]]. now exists xs, x.
Qed.

Lemma classify_None u c xs x :
  classify u = None ->
  In (c, xs) triggerTable -> In x xs -> includes u x = false.
Proof.
  unfold classify. destruct (List.find _ _) eqn:E; [discriminate|].
  intros _ Hrow Hx. eapply find_none in E; [|exact Hrow]. simpl in E.
  destruct (includes u x) eqn:Ei; [|reflexivity].
  rewrite <- E. symmetry. apply existsb_exists. now exists x.
Qed.

Lemma triggers_solid c xs x :
  In (c, xs) triggerTable -> In x xs -> solid x = true.
Proof.
  assert (H : forallb (fun row => forallb solid (snd row)) triggerTable = true)
    by (vm_compute; reflexivity).
  intros Hrow Hx. rewrite forallb_forall in H. specialize (H _ Hrow).
  rewrite forallb_forall in H. now apply H.
Qed.

(* ===================================================================== *)
(** * The category filter *)
(* ===================================================================== *)

Section CategoryFilter.
Context {casing : Casing}.

Lemma matchesCategory_spec C item :
  matchesCategory C item = true
  <-> eqIgnoreCase (normalizeTopic (Item.topic item)) C
      \/ Exists (fun t => eqIgnoreCase (normalizeTopic t) C) (Item.tags item).
Proof.
  unfold matchesCategory, eqIgnoreCase.
  rewrite orb_true_iff, strictEq_true, existsb_exists, Exists_exists.
  split; (intros [H | [t [Ht Heq]]]; [now left | right; exists t]).
  - split; [apply list_elem_of_In, Ht | now apply strictEq_true].
  - split; [apply list_elem_of_In, Ht | now apply strictEq_true].
Qed.

Lemma categoryStage_filter C items :
  categoryStage C items
  = List.filter (fun item => bool_decide (inCategory C item)) items.
Proof.
  unfold categoryStage. destruct (strictEq C (lit "all")) eqn:Hall; simpl.
  - apply strictEq_true in Hall. symmetry.
    apply forallb_filter_id, forallb_forall. intros item _. apply bool_decide_eq_true. now left.
  - apply strictEq_false in Hall. apply filter_ext. intros item.
    destruct (matchesCategory C item) eqn:Hm; symmetry.
    + apply bool_decide_eq_true. right. now apply matchesCategory_spec.
    + apply bool_decide_eq_false. intros [Heq | H]; [contradiction|].
      apply matchesCategory_spec in H. congruence.
Qed.

(** C1. Category filter correctness: the category stage returns, in their
    order, exactly the items that belong to the active category.  For an
    active category other than the sentinel "all" an item belongs to it iff
    its normalized topic equals the category up to case or some tag does once
    normalized; under "all" every item is returned. *)
Theorem category_filter_correct (items : list SavedItem) (C : jsstring) :
  categoryStage C items
  = List.filter (fun item => bool_decide (inCategory C item)) items
  /\ (forall item,
        In item (categoryStage C items)
        <-> In item items
            /\ (C = lit "all"
                \/ toLowerCase (normalizeTopic (Item.topic item))
                   = toLowerCase C
                \/ exists t, In t (Item.tags item)
                             /\ toLowerCase (normalizeTopic t) = toLowerCase C))
  /\ categoryStage (lit "all") items = items.
Proof.
  split; [apply categoryStage_filter | split].
  - intros item. rewrite categoryStage_filter, filter_In, bool_decide_eq_true.
    unfold inCategory, eqIgnoreCase. rewrite Exists_exists.
    split; intros [Hin H]; (split; [exact Hin|]);
      (destruct H as [H | [H | [t [Ht H]]]];
       [now left | right; now left | right; right; exists t]).
    + split; [apply list_elem_of_In, Ht | exact H].
    + split; [apply list_elem_of_In, Ht | exact H].
  - reflexivity.
Qed.

End CategoryFilter.

(* ===================================================================== *)
(** * The text filter *)
(* ===================================================================== *)

Section TextFilter.
Context {casing : Casing}.

Lemma queryWords_empty : queryWords [] = [].
Proof. reflexivity. Qed.

Lemma matchesAllWords_spec words item :
  matchesAllWords words item = true
  <-> Forall (fun w => isSubstring w (searchableText item)) words.
Proof. apply forallb_includes. Qed.

Lemma primary_fails_query words item :
  ~ Forall (fun w => isSubstring w (searchableText item)) words ->
  matchesAllWords words item = false.
Proof.
  intros H. destruct (matchesAllWords words item) eqn:E; [|reflexivity].
  now apply matchesAllWords_spec in E.
Qed.

Lemma primary_fails_truthy query item :
  ~ Forall (fun w => isSubstring w (searchableText item)) (queryWords query) ->
  truthy query = true.
Proof.
  intros H. destruct query; [|reflexivity].
  exfalso. apply H. rewrite queryWords_empty. constructor.
Qed.

Lemma matchesAiKeyword_spec aiKeywords item :
  matchesAiKeyword aiKeywords item = true
  <-> exists k, In k aiKeywords
                /\ isSubstring (toLowerCase k) (searchableText item).
Proof.
  unfold matchesAiKeyword. rewrite existsb_exists.
  split; intros [k [Hk H]]; exists k; (split; [exact Hk|]);
    now apply includes_spec.
Qed.

Lemma matchesAiTopic_spec aiTopics item :
  matchesAiTopic aiTopics item = true
  <-> exists t, In t aiTopics
                /\ (isSubstring (toLowerCase t)
                      (toLowerCase (normalizeTopic (Item.topic item)))
                    \/ toLowerCase (normalizeTopic t)
                       = toLowerCase (normalizeTopic (Item.topic item))).
Proof.
  unfold matchesAiTopic. rewrite existsb_exists.
  split; intros [t [Ht H]]; exists t; (split; [exact Ht|]).
  - apply orb_true_iff in H. destruct H as [H | H].
    + left. now apply includes_spec.
    + right. now apply strictEq_true.
  - apply orb_true_iff. destruct H as [H | H].
    + left. now apply includes_spec.
    + right. now apply strictEq_true.
Qed.

(** C2. All-words match implies inclusion: an item that passed the category
    filter and whose lower-cased haystack contains every token of a non-empty
    tokenized query is kept by the text filter, whatever the intent is,
    absent included. *)
Theorem all_words_match_included
  (items : list SavedItem) (activeFilter searchQuery : jsstring)
  (searchIntent : option SearchIntentResponse) (item : SavedItem) :
  In item (categoryStage activeFilter items) ->
  queryWords (trim (toLowerCase searchQuery)) <> [] ->
  Forall (fun w => isSubstring w (searchableText item))
         (queryWords (trim (toLowerCase searchQuery))) ->
  In item (textStage (trim (toLowerCase searchQuery)) searchIntent
             (categoryStage activeFilter items)).
Proof.
  intros Hin _ Hall. unfold textStage.
  destruct (truthy _); [|exact Hin].
  apply filter_In. split; [exact Hin|].
  unfold matchesText. apply matchesAllWords_spec in Hall. now rewrite Hall.
Qed.

(** C3, as the code has it.  When the primary all-words match fails on an
    item and an intent is present, the text filter keeps the item iff some
    intent keyword, lower-cased, occurs in the haystack, or some intent topic
    [t] is such that [t] lower-cased (not normalized) occurs in the lower-cased
    normalized item topic, or the normalized forms of [t] and of the item topic
    are equal up to case. *)
Theorem intent_fallback_decides
  (result : list SavedItem) (query : jsstring)
  (intent : SearchIntentResponse) (item : SavedItem) :
  In item result ->
  ~ Forall (fun w => isSubstring w (searchableText item)) (queryWords query) ->
  (In item (textStage query (Some intent) result)
   <-> (exists k, In k (Intent.keywords intent)
                  /\ isSubstring (toLowerCase k) (searchableText item))
       \/ (exists t, In t (Intent.topics intent)
                     /\ (isSubstring (toLowerCase t)
                           (toLowerCase (normalizeTopic (Item.topic item)))
                         \/ toLowerCase (normalizeTopic t)
                            = toLowerCase (normalizeTopic (Item.topic item))))).
Proof.
  intros Hin Hfail. unfold textStage.
  rewrite (primary_fails_truthy _ _ Hfail), filter_In.
  unfold matchesText. rewrite (primary_fails_query _ _ Hfail).
  rewrite orb_true_iff, matchesAiKeyword_spec, matchesAiTopic_spec.
  tauto.
Qed.

End TextFilter.

(* ===================================================================== *)
(** * Facts about the sort *)
(* ===================================================================== *)

Lemma filter_twice {A} (f g : A -> bool) l :
  List.filter f (List.filter g l) = List.filter (fun y => g y && f y) l.
Proof.
  induction l as [|x l IH]; simpl; [reflexivity|].
  destruct (g x); simpl; [destruct (f x)|]; now rewrite IH.
Qed.

Section SortFacts.
Context {A : Type} (compareFn : A -> A -> Z).

(** The comparator is consistent: it orders any two elements one way or the
    other, transitively. *)
Hypothesis compare_total : forall a b, 0 < compareFn a b -> compareFn b a <= 0.
Hypothesis compare_trans :
  forall a b c, compareFn a b <= 0 -> compareFn b c <= 0 -> compareFn a c <= 0.

Lemma sort_insert_Permutation x l :
  Permutation (sort_insert compareFn x l) (x :: l).
Proof.
  induction l as [|y l IH]; simpl; [reflexivity|].
  destruct (compareFn x y <=? 0); [reflexivity|].
  rewrite IH. apply perm_swap.
Qed.

Lemma sort_Permutation l : Permutation (sort compareFn l) l.
Proof.
  induction l as [|x l IH]; simpl; [reflexivity|].
  rewrite sort_insert_Permutation. now constructor.
Qed.

Lemma sort_insert_sorted x l :
  StronglySorted (fun a b => compareFn a b <= 0) l ->
  StronglySorted (fun a b => compareFn a b <= 0) (sort_insert compareFn x l).
Proof.
  induction 1 as [|y l Hs IH Hy]; simpl.
  - constructor; constructor.
  - destruct (compareFn x y <=? 0) eqn:E.
    + apply Z.leb_le in E. constructor; [now constructor|].
      constructor; [exact E|].
      eapply List.Forall_impl; [|exact Hy]. intros z Hz. eauto.
    + apply Z.leb_gt in E. constructor; [exact IH|].
      apply (Permutation_Forall (x := x :: l)).
      * symmetry. apply sort_insert_Permutation.
      * constructor; [now apply compare_total | exact Hy].
Qed.

Lemma sort_sorted l :
  StronglySorted (fun a b => compareFn a b <= 0) (sort compareFn l).
Proof.
  induction l as [|x l IH]; simpl; [constructor|].
  now apply sort_insert_sorted.
Qed.

(** Stability: the elements that compare equal to [x] keep their order. *)
Lemma sort_insert_stable x y l :
  List.filter (fun z => (compareFn x z <=? 0) && (compareFn z x <=? 0))
              (sort_insert compareFn y l)
  = List.filter (fun z => (compareFn x z <=? 0) && (compareFn z x <=? 0))
                (y :: l).
Proof.
  induction l as [|z l IH]; [reflexivity|].
  cbn [sort_insert]. destruct (compareFn y z <=? 0) eqn:E; [reflexivity|].
  cbn [List.filter] in *. rewrite IH.
  destruct ((compareFn x y <=? 0) && (compareFn y x <=? 0)) eqn:Ey;
    [|reflexivity].
  destruct ((compareFn x z <=? 0) && (compareFn z x <=? 0)) eqn:Ez;
    [|reflexivity].
  exfalso. apply andb_true_iff in Ey as [_ Ey], Ez as [Ez _].
  apply Z.leb_le in Ey, Ez. apply Z.leb_gt in E.
  pose proof (compare_trans _ _ _ Ey Ez). lia.
Qed.

Lemma sort_stable x l :
  List.filter (fun z => (compareFn x z <=? 0) && (compareFn z x <=? 0))
              (sort compareFn l)
  = List.filter (fun z => (compareFn x z <=? 0) && (compareFn z x <=? 0)) l.
Proof.
  induction l as [|y l IH]; [reflexivity|].
  cbn [sort]. rewrite sort_insert_stable. cbn [List.filter]. now rewrite IH.
Qed.

End SortFacts.

Lemma sorted_weaken {A} (R S : A -> A -> Prop) (l : list A) :
  (forall a b, R a b -> S a b) -> StronglySorted R l -> StronglySorted S l.
Proof.
  intros HRS. induction 1 as [|x l Hs IH Hx]; constructor; [exact IH|].
  eapply List.Forall_impl; [|exact Hx]. intros b. apply HRS.
Qed.

Lemma sorted_precedes {A} (R : A -> A -> Prop) (l : list A) a b :
  StronglySorted R l -> precedes a b l -> R a b.
Proof.
  intros Hs. revert a b. induction Hs as [|x l Hs IH Hx]; intros a b.
  - intros [i [j [_ [Hi _]]]]. now rewrite lookup_nil in Hi.
  - intros [i [j [Hij [Hi Hj]]]].
    destruct j as [|j]; [lia|]. simpl in Hj.
    destruct i as [|i]; simpl in Hi.
    + injection Hi as <-. rewrite List.Forall_forall in Hx.
      apply Hx, list_elem_of_In, list_elem_of_lookup. now exists j.
    + apply IH. exists i, j. repeat split; [lia | exact Hi | exact Hj].
Qed.

Lemma precedes_total {A} (l : list A) a b :
  In a l -> In b l -> a <> b -> precedes a b l \/ precedes b a l.
Proof.
  intros Ha Hb Hne.
  apply list_elem_of_In, list_elem_of_lookup in Ha as [i Hi].
  apply list_elem_of_In, list_elem_of_lookup in Hb as [j Hj].
  destruct (Nat.lt_trichotomy i j) as [H | [H | H]].
  - left. now exists i, j.
  - subst j. congruence.
  - right. now exists j, i.
Qed.

Lemma orZero_id x : orZero x = x.
Proof. unfold orZero. destruct (x =? 0) eqn:E; [|reflexivity]. apply Z.eqb_eq in E. lia. Qed.

(* ===================================================================== *)
(** * Ranking *)
(* ===================================================================== *)

(** Case analysis on every [primary === 0] of the goal. *)
Ltac case_zero_tests :=
  repeat match goal with
         | |- context [?x =? 0] =>
             let E := fresh in
             destruct (x =? 0) eqn:E;
             [apply Z.eqb_eq in E | apply Z.eqb_neq in E]
         end.

Lemma compareStable_engagement a b :
  compareStable EngagementDesc a b <= 0
  <-> Item.engagementScore a > Item.engagementScore b
      \/ (Item.engagementScore a = Item.engagementScore b
          /\ Item.dateAdded a >= Item.dateAdded b).
Proof.
  unfold compareStable. rewrite !orZero_id. case_zero_tests; lia.
Qed.

Lemma compareStable_total m a b :
  0 < compareStable m a b -> compareStable m b a <= 0.
Proof.
  unfold compareStable. rewrite !orZero_id.
  destruct m; case_zero_tests; lia.
Qed.

Lemma compareStable_trans m a b c :
  compareStable m a b <= 0 -> compareStable m b c <= 0 ->
  compareStable m a c <= 0.
Proof.
  unfold compareStable. rewrite !orZero_id.
  destruct m; case_zero_tests; lia.
Qed.

Lemma compareRank_total m a b :
  0 < compareRank m a b -> compareRank m b a <= 0.
Proof. unfold compareRank. rewrite !orZero_id. destruct m; lia. Qed.

Lemma compareRank_trans m a b c :
  compareRank m a b <= 0 -> compareRank m b c <= 0 -> compareRank m a c <= 0.
Proof. unfold compareRank. rewrite !orZero_id. destruct m; lia. Qed.

Lemma rankStage_Permutation m items : Permutation (rankStage m items) items.
Proof.
  unfold rankStage. destruct (negb (isChronological m)).
  - now rewrite !sort_Permutation.
  - apply sort_Permutation.
Qed.

Lemma bool_eq_iff (b c : bool) : (b = true <-> c = true) -> b = c.
Proof. destruct b, c; intuition congruence. Qed.

Lemma sameKeys_stable_class x z :
  sameKeys x z
  = (compareStable EngagementDesc x z <=? 0)
    && (compareStable EngagementDesc z x <=? 0).
Proof.
  apply bool_eq_iff. unfold sameKeys.
  rewrite !andb_true_iff, !Z.leb_le, !Z.eqb_eq, !compareStable_engagement. lia.
Qed.

Lemma sameKeys_rank_class x z :
  sameKeys x z
  = ((compareRank EngagementDesc x z <=? 0)
     && (compareRank EngagementDesc z x <=? 0))
    && sameKeys x z.
Proof.
  apply bool_eq_iff. unfold sameKeys, compareRank.
  rewrite !andb_true_iff, !Z.leb_le, !Z.eqb_eq, !orZero_id. lia.
Qed.

(** Items that agree on both keys keep, through both passes, the order they
    came in. *)
Lemma rankStage_engagement_stable x items :
  List.filter (sameKeys x) (rankStage EngagementDesc items)
  = List.filter (sameKeys x) items.
Proof.
  unfold rankStage. cbn [isChronological negb].
  rewrite (filter_ext _ _ (sameKeys_stable_class x)).
  rewrite sort_stable by apply compareStable_trans.
  rewrite <- (filter_ext _ _ (sameKeys_stable_class x)).
  rewrite (filter_ext _ _ (sameKeys_rank_class x)), <- filter_twice.
  rewrite sort_stable by apply compareRank_trans.
  rewrite filter_twice. now rewrite <- (filter_ext _ _ (sameKeys_rank_class x)).
Qed.

(** C4, as the code has it.  Under engagement-descending the ranked output
    holds the same items, ordered by engagementScore descending and, among
    equal scores, by dateAdded descending.  For two items [a], [b] of equal
    engagementScore: if [a] precedes [b] then [a.dateAdded >= b.dateAdded];
    if [a.dateAdded > b.dateAdded] then [a] precedes [b]; so when their
    dateAdded differ, [a] precedes [b] iff [a.dateAdded >= b.dateAdded].
    Items that agree on both keys stand in one order only, the one they had
    before ranking. *)
Theorem engagement_tie_break (items : list SavedItem) :
  Permutation (rankStage EngagementDesc items) items
  /\ StronglySorted
       (fun a b => Item.engagementScore a > Item.engagementScore b
                   \/ (Item.engagementScore a = Item.engagementScore b
                       /\ Item.dateAdded a >= Item.dateAdded b))
       (rankStage EngagementDesc items)
  /\ (forall a b,
        Item.engagementScore a = Item.engagementScore b ->
        (precedes a b (rankStage EngagementDesc items) ->
         Item.dateAdded a >= Item.dateAdded b)
        /\ (In a (rankStage EngagementDesc items) ->
            In b (rankStage EngagementDesc items) ->
            Item.dateAdded a > Item.dateAdded b ->
            precedes a b (rankStage EngagementDesc items))
        /\ (In a (rankStage EngagementDesc items) ->
            In b (rankStage EngagementDesc items) ->
            Item.dateAdded a <> Item.dateAdded b ->
            (precedes a b (rankStage EngagementDesc items)
             <-> Item.dateAdded a >= Item.dateAdded b)))
  /\ (forall x,
        List.filter (sameKeys x) (rankStage EngagementDesc items)
        = List.filter (sameKeys x) items).
Proof.
  assert (Hs : StronglySorted
                 (fun a b => Item.engagementScore a > Item.engagementScore b
                             \/ (Item.engagementScore a = Item.engagementScore b
                                 /\ Item.dateAdded a >= Item.dateAdded b))
                 (rankStage EngagementDesc items)).
  { unfold rankStage. simpl.
    eapply sorted_weaken; cycle 1.
    - apply sort_sorted.
      + apply compareStable_total.
      + apply compareStable_trans.
    - intros a b H. now apply compareStable_engagement. }
  split; [apply rankStage_Permutation | split; [exact Hs|]].
  split; [|intros x; apply rankStage_engagement_stable].
  intros a b Heq.
  assert (Hge : precedes a b (rankStage EngagementDesc items) ->
                Item.dateAdded a >= Item.dateAdded b).
  { intros Hp. destruct (sorted_precedes _ _ _ _ Hs Hp) as [H | [_ H]]; lia. }
  assert (Hgt : In a (rankStage EngagementDesc items) ->
                In b (rankStage EngagementDesc items) ->
                Item.dateAdded a > Item.dateAdded b ->
                precedes a b (rankStage EngagementDesc items)).
  { intros Ha Hb Hlt.
    destruct (precedes_total _ a b Ha Hb) as [H | H];
      [intros ->; lia | exact H |].
    destruct (sorted_precedes _ _ _ _ Hs H) as [H' | [_ H']]; lia. }
  split; [exact Hge | split; [exact Hgt|]].
  intros Ha Hb Hne. split; [exact Hge|].
  intros H. apply Hgt; [exact Ha | exact Hb | lia].
Qed.

Section AbsentIntent.
Context {casing : Casing}.

Lemma matchesText_absent words item :
  matchesText words None item = matchesAllWords words item.
Proof. unfold matchesText. now destruct (matchesAllWords words item). Qed.

Lemma textStage_absent query result :
  textStage query None result = exactMatchOnly query result.
Proof.
  unfold textStage, exactMatchOnly. destruct (truthy query); [|reflexivity].
  apply filter_ext. intros item. apply matchesText_absent.
Qed.

Lemma exactMatchOnly_In query result item :
  In item (exactMatchOnly query result)
  <-> In item result
      /\ Forall (fun w => isSubstring w (searchableText item))
                (queryWords query).
Proof.
  unfold exactMatchOnly. destruct query as [|c query]; simpl truthy; cbv iota.
  - rewrite queryWords_empty. split; [intros H; split; [exact H | constructor] | tauto].
  - now rewrite filter_In, matchesAllWords_spec.
Qed.

(** C7. Absent intent: the pipeline keeps, of the items that passed the
    category filter, exactly those on which the all-words match succeeds (an
    item on which it fails is dropped, there is no fallback), and returns
    them sorted by dateAdded descending, without a limit. *)
Theorem absent_intent_exact_match_recency
  (items : list SavedItem) (searchQuery activeFilter : jsstring) :
  filteredItems items searchQuery activeFilter None
  = sort (fun a b => Item.dateAdded b - Item.dateAdded a)
         (exactMatchOnly (trim (toLowerCase searchQuery))
            (categoryStage activeFilter items))
  /\ StronglySorted (fun a b => Item.dateAdded a >= Item.dateAdded b)
       (filteredItems items searchQuery activeFilter None)
  /\ (forall item,
        In item (filteredItems items searchQuery activeFilter None)
        <-> In item (categoryStage activeFilter items)
            /\ Forall (fun w => isSubstring w (searchableText item))
                      (queryWords (trim (toLowerCase searchQuery)))).
Proof.
  assert (E : filteredItems items searchQuery activeFilter None
              = sort (fun a b => Item.dateAdded b - Item.dateAdded a)
                  (exactMatchOnly (trim (toLowerCase searchQuery))
                     (categoryStage activeFilter items))).
  { unfold filteredItems, limitStage, rankStage, resolveSortMode. simpl.
    now rewrite textStage_absent. }
  split; [exact E | rewrite E; split].
  - eapply sorted_weaken; [|apply sort_sorted; intros; lia].
    intros a b H. simpl in H. lia.
  - intros item. rewrite <- exactMatchOnly_In.
    split; apply Permutation_in; [|symmetry]; apply sort_Permutation.
Qed.

End AbsentIntent.

(* ===================================================================== *)
(** * The item store *)
(* ===================================================================== *)

Lemma getAllItems_In (db : Store) item :
  In item (getAllItems db) <-> exists k, db !! k = Some item.
Proof.
  unfold getAllItems. rewrite <- list_elem_of_In, list_elem_of_fmap. split.
  - intros [[k x] [-> H]]. exists k. now apply elem_of_map_to_list.
  - intros [k H]. exists (k, item). split; [reflexivity|].
    now apply elem_of_map_to_list.
Qed.

Lemma find_by_id (db : Store) id item :
  keyed db -> db !! id = Some item ->
  List.find (fun i => strictEq (Item.id i) id) (getAllItems db) = Some item.
Proof.
  intros Hk Hi.
  destruct (List.find _ _) as [found|] eqn:E.
  - apply find_some in E as [Hin Heq]. apply strictEq_true in Heq.
    apply getAllItems_In in Hin as [k Hk']. pose proof (Hk _ _ Hk') as Hid.
    rewrite Heq in Hid. subst k. rewrite Hi in Hk'. now symmetry.
  - exfalso. eapply find_none in E; [|apply getAllItems_In; exists id; exact Hi].
    apply strictEq_false in E. apply E. now apply Hk.
Qed.

Lemma find_by_id_none (db : Store) id :
  (forall item, In item (getAllItems db) -> Item.id item <> id) ->
  List.find (fun i => strictEq (Item.id i) id) (getAllItems db) = None.
Proof.
  intros H. destruct (List.find _ _) as [found|] eqn:E; [|reflexivity].
  apply find_some in E as [Hin Heq]. apply strictEq_true in Heq.
  now apply H in Hin.
Qed.

(** The key path is an invariant of the store. *)
Lemma keyed_empty : keyed ∅.
Proof. intros k item H. now rewrite lookup_empty in H. Qed.

Lemma keyed_saveItem (item : SavedItem) (db : Store) : keyed db -> keyed (saveItem item db).
Proof.
  intros Hk k i H. unfold saveItem in H.
  apply lookup_insert_Some in H as [[<- <-] | [_ H]]; [reflexivity|].
  now apply Hk.
Qed.

Lemma keyed_deleteItem (id : jsstring) (db : Store) : keyed db -> keyed (deleteItem id db).
Proof.
  intros Hk k i H. unfold deleteItem in H.
  apply lookup_delete_Some in H as [_ H]. now apply Hk.
Qed.

Lemma keyed_save (item : SavedItem) (db : Store) : keyed db -> keyed (snd (save item db)).
Proof. intros Hk. unfold save. simpl. now apply keyed_saveItem. Qed.

Lemma keyed_updateEnrichment (id : jsstring) (aiData : AIEnrichmentResponse)
  (db : Store) :
  keyed db -> keyed (updateEnrichment id aiData db).
Proof.
  intros Hk. unfold updateEnrichment.
  destruct (List.find _ _); [now apply keyed_saveItem | exact Hk].
Qed.

(** C10. An id that identifies no stored item: [updateEnrichment] returns
    (it does not fail) and leaves the store as it was. *)
Theorem updateEnrichment_unknown_id
  (db : Store) (id : jsstring) (aiData : AIEnrichmentResponse) :
  (forall item, In item (getAllItems db) -> Item.id item <> id) ->
  updateEnrichment id aiData db = db.
Proof.
  intros H. unfold updateEnrichment. now rewrite find_by_id_none.
Qed.

(** ** Sets of tags *)

Lemma setFrom_filter seen a :
  setFrom seen a
  = List.filter (fun y => negb (existsb (strictEq y) seen)) (firstOccurrences a).
Proof.
  revert seen. induction a as [|x a IH]; intros seen; simpl; [reflexivity|].
  destruct (existsb (strictEq x) seen) eqn:E; simpl.
  - rewrite IH, filter_twice. apply filter_ext_in. intros y _.
    destruct (strictEq y x) eqn:Eyx; simpl; [|reflexivity].
    apply strictEq_true in Eyx. subst y. now rewrite E.
  - f_equal. rewrite IH, filter_twice. apply filter_ext. intros y.
    simpl. now rewrite negb_orb.
Qed.

Lemma setFrom_firstOccurrences a : setFrom [] a = firstOccurrences a.
Proof.
  rewrite setFrom_filter. apply forallb_filter_id, forallb_forall. reflexivity.
Qed.

Lemma firstOccurrences_In a y : In y (firstOccurrences a) <-> In y a.
Proof.
  induction a as [|x a IH]; simpl; [reflexivity|].
  rewrite filter_In, IH, negb_true_iff, strictEq_false.
  destruct (decide (x = y)) as [-> | Hne]; [tauto|].
  split; [tauto|]. intros [H | H]; [contradiction | right; split; congruence].
Qed.

Lemma firstOccurrences_NoDup a : List.NoDup (firstOccurrences a).
Proof.
  induction a as [|x a IH]; simpl; constructor.
  - rewrite filter_In, negb_true_iff, strictEq_false. tauto.
  - now apply List.NoDup_filter.
Qed.

Lemma firstOccurrences_app a b :
  firstOccurrences (a ++ b)
  = firstOccurrences a
    ++ List.filter (fun y => negb (existsb (strictEq y) a)) (firstOccurrences b).
Proof.
  induction a as [|x a IH]; simpl.
  - symmetry. apply forallb_filter_id, forallb_forall. reflexivity.
  - f_equal. rewrite IH, List.filter_app. f_equal.
    rewrite filter_twice. apply filter_ext. intros y.
    simpl. rewrite negb_orb. apply andb_comm.
Qed.

Lemma isPlaceholderTitle_spec title :
  isPlaceholderTitle title = true <-> knownPlaceholder title.
Proof.
  unfold isPlaceholderTitle, knownPlaceholder.
  now rewrite orb_true_iff, !strictEq_true.
Qed.

Lemma truthy_spec s : truthy s = true <-> s <> [].
Proof. destruct s; simpl; split; congruence. Qed.

(** C6. [updateEnrichment] on the stored item with the given id stores, under
    that id, an item whose tags are the existing tags followed by the patch's
    tags with duplicates removed (each value at its first occurrence), whose
    topic and summary are the patch's, whose engagementScore is the patch's
    when that is present and non-zero and the existing one otherwise, whose
    title is the suggested title when the existing title is a known
    placeholder and a (non-empty) suggested title is supplied and the existing
    title otherwise, and whose isEnriching flag is false; every other field is
    unchanged. *)
Theorem updateEnrichment_merges
  (db : Store) (id : jsstring) (item : SavedItem)
  (aiData : AIEnrichmentResponse) :
  keyed db -> db !! id = Some item ->
  exists stored,
    updateEnrichment id aiData db = <[id := stored]> db
    /\ (Item.tags stored
        = firstOccurrences (Item.tags item ++ Enrichment.tags aiData)
        /\ Item.tags stored
           = firstOccurrences (Item.tags item)
             ++ List.filter
                  (fun y => negb (existsb (strictEq y) (Item.tags item)))
                  (firstOccurrences (Enrichment.tags aiData))
        /\ List.NoDup (Item.tags stored)
        /\ forall x, In x (Item.tags stored)
                     <-> In x (Item.tags item) \/ In x (Enrichment.tags aiData))
    /\ Item.topic stored = Enrichment.topic aiData
    /\ Item.summary stored = Enrichment.summary aiData
    /\ ((forall e, Enrichment.engagementScore aiData = Some e -> e <> 0 ->
                   Item.engagementScore stored = e)
        /\ (Enrichment.engagementScore aiData = None
            \/ Enrichment.engagementScore aiData = Some 0 ->
            Item.engagementScore stored = Item.engagementScore item))
    /\ ((forall s, knownPlaceholder (Item.title item) ->
                   Enrichment.suggestedTitle aiData = Some s -> s <> [] ->
                   Item.title stored = s)
        /\ (Item.title stored <> Item.title item ->
            knownPlaceholder (Item.title item)
            /\ Enrichment.suggestedTitle aiData = Some (Item.title stored)))
    /\ Item.isEnriching stored = Some false
    /\ (Item.id stored = Item.id item
        /\ Item.url stored = Item.url item
        /\ Item.dateAdded stored = Item.dateAdded item
        /\ Item.sequenceNumber stored = Item.sequenceNumber item
        /\ Item.platform stored = Item.platform item
        /\ Item.thumbnail stored = Item.thumbnail item
        /\ Item.creator stored = Item.creator item
        /\ Item.description stored = Item.description item
        /\ Item.debugInfo stored = Item.debugInfo item).
Proof.
  intros Hk Hi. exists (updatedItem item aiData).
  split.
  { unfold updateEnrichment. rewrite (find_by_id _ _ _ Hk Hi).
    unfold saveItem. simpl. now rewrite (Hk _ _ Hi). }
  split.
  { simpl. rewrite setFrom_firstOccurrences.
    split; [reflexivity | split; [apply firstOccurrences_app | split]].
    - apply firstOccurrences_NoDup.
    - intros x. now rewrite firstOccurrences_In, in_app_iff. }
  split; [reflexivity | split; [reflexivity | split]].
  { simpl. split.
    - intros e -> He. apply Z.eqb_neq in He. now rewrite He.
    - intros [-> | ->]; reflexivity. }
  split.
  { simpl. split.
    - intros s Hp -> Hs. apply isPlaceholderTitle_spec in Hp.
      apply truthy_spec in Hs. now rewrite Hp, Hs.
    - destruct (Enrichment.suggestedTitle aiData) as [s|]; [|congruence].
      destruct (isPlaceholderTitle (Item.title item)) eqn:Hp; simpl;
        [|congruence].
      destruct (truthy s); [|congruence].
      intros _. split; [now apply isPlaceholderTitle_spec | reflexivity]. }
  split; [reflexivity|]. repeat split.
Qed.

(** ** Sequence numbers *)

Lemma fold_max_spec (all : list SavedItem) (acc : Z) :
  acc <= fold_left (fun max i => Z.max max (orZero (Item.sequenceNumber i)))
                   all acc
  /\ (forall i, In i all ->
        Item.sequenceNumber i
        <= fold_left (fun max i => Z.max max (orZero (Item.sequenceNumber i)))
                     all acc)
  /\ (fold_left (fun max i => Z.max max (orZero (Item.sequenceNumber i)))
                all acc = acc
      \/ exists i, In i all
           /\ Item.sequenceNumber i
              = fold_left (fun max i => Z.max max (orZero (Item.sequenceNumber i)))
                          all acc).
Proof.
  revert acc. induction all as [|x all IH]; intros acc; simpl.
  - split; [lia | split; [tauto | now left]].
  - rewrite orZero_id.
    destruct (IH (Z.max acc (Item.sequenceNumber x))) as [H1 [H2 H3]].
    split; [lia | split].
    + intros i [<- | Hi]; [lia | now apply H2].
    + destruct H3 as [H3 | [i [Hi H3]]].
      * rewrite H3. destruct (Z.max_spec acc (Item.sequenceNumber x))
          as [[_ E] | [_ E]]; rewrite E; [right; exists x | left]; tauto.
      * right. exists i. tauto.
Qed.

Lemma maxSeq_greatest (db : Store) :
  maxSequenceOrZero db (maxSeq (getAllItems db)).
Proof.
  unfold maxSequenceOrZero, maxSeq.
  destruct (fold_max_spec (getAllItems db) 0) as [H1 [H2 H3]].
  split; [exact H1 | split; [exact H2 | exact H3]].
Qed.

Lemma maxSequenceOrZero_unique (db : Store) M N :
  maxSequenceOrZero db M -> maxSequenceOrZero db N -> M = N.
Proof.
  intros [M0 [Mub Matt]] [N0 [Nub Natt]].
  destruct Matt as [-> | [i [Hi <-]]], Natt as [-> | [j [Hj <-]]].
  - reflexivity.
  - apply Mub in Hj. lia.
  - apply Nub in Hi. lia.
  - apply Mub in Hj. apply Nub in Hi. lia.
Qed.

Lemma maxSeq_eq (db : Store) M :
  maxSequenceOrZero db M -> maxSeq (getAllItems db) = M.
Proof.
  intros H. eapply maxSequenceOrZero_unique; [apply maxSeq_greatest | exact H].
Qed.

Lemma save_sentinel (db : Store) M item :
  maxSequenceOrZero db M -> Item.sequenceNumber item = -1 ->
  save item db
  = (Item.with_sequenceNumber (M + 1) item,
     <[Item.id item := Item.with_sequenceNumber (M + 1) item]> db).
Proof.
  intros HM Hs. unfold save. rewrite Hs. simpl.
  now rewrite (maxSeq_eq _ _ HM).
Qed.

Lemma maxSequenceOrZero_insert (db : Store) M item :
  maxSequenceOrZero db M -> Item.sequenceNumber item = M + 1 ->
  maxSequenceOrZero (<[Item.id item := item]> db) (M + 1).
Proof.
  intros [M0 [Mub _]] Hs. split; [lia | split].
  - intros i Hi. apply getAllItems_In in Hi as [k Hk].
    apply lookup_insert_Some in Hk as [[_ <-] | [_ Hk]]; [lia|].
    assert (Item.sequenceNumber i <= M); [|lia].
    apply Mub, getAllItems_In. now exists k.
  - right. exists item. split; [|exact Hs].
    apply getAllItems_In. exists (Item.id item). apply lookup_insert_eq.
Qed.

(** On a store that holds a non-negative sequence number, and on the empty
    store, the greatest of 0 and the stored numbers is their maximum. *)
Lemma maxSequence_nonneg (db : Store) M :
  maxSequence db M -> 0 <= M -> maxSequenceOrZero db M.
Proof.
  intros [[Hnil ->] | [Hatt Hub]] H0.
  - split; [lia | split; [|now left]]. intros i Hi. rewrite Hnil in Hi. destruct Hi.
  - split; [exact H0 | split; [exact Hub | now right]].
Qed.

(** Where the fold starts from: with [M] the greatest of 0 and the stored
    sequence numbers, a sentinel item is stored with [M + 1], the next one
    with [M + 2], and any other item as it is. *)
Lemma save_sequence_from_zero
  (db : Store) (M : Z) (a b c : SavedItem) :
  maxSequenceOrZero db M ->
  Item.sequenceNumber a = -1 ->
  Item.sequenceNumber b = -1 ->
  Item.sequenceNumber c <> -1 ->
  (fst (save a db) = Item.with_sequenceNumber (M + 1) a
   /\ snd (save a db) !! Item.id a
      = Some (Item.with_sequenceNumber (M + 1) a))
  /\ (fst (save b (snd (save a db))) = Item.with_sequenceNumber (M + 2) b
      /\ snd (save b (snd (save a db))) !! Item.id b
         = Some (Item.with_sequenceNumber (M + 2) b)
      /\ Item.sequenceNumber (fst (save a db))
         < Item.sequenceNumber (fst (save b (snd (save a db)))))
  /\ save c db = (c, <[Item.id c := c]> db).
Proof.
  intros HM Ha Hb Hc.
  rewrite (save_sentinel _ _ _ HM Ha). cbn [fst snd].
  split; [split; [reflexivity | apply lookup_insert_eq] | split].
  - pose proof (maxSequenceOrZero_insert db M
                  (Item.with_sequenceNumber (M + 1) a) HM eq_refl) as HM1.
    cbn [Item.id Item.with_sequenceNumber] in HM1.
    rewrite (save_sentinel _ _ _ HM1 Hb). cbn [fst snd].
    replace (M + 1 + 1) with (M + 2) by lia.
    split; [reflexivity | split; [apply lookup_insert_eq | simpl; lia]].
  - unfold save. apply Z.eqb_neq in Hc. now rewrite Hc.
Qed.

(** In a store whose numbers were all given out by [save], the maximum of
    the stored numbers, 0 for the empty store, is what the fold computes. *)
Lemma numbered_maxSequence (db : Store) M :
  numbered db -> maxSequence db M -> maxSequenceOrZero db M.
Proof.
  intros Hn HM. apply maxSequence_nonneg; [exact HM|].
  destruct HM as [[_ ->] | [[i [Hi <-]] _]]; [lia|].
  apply Hn in Hi. lia.
Qed.

(** C5.  Let the store hold numbers that [save] gave out (the stores the
    program produces do: [produced_numbered]) and let [M] be the maximum
    sequence number of its items, 0 when it is empty.  Saving an item that
    carries the sentinel -1 stores it, under its id, with sequence number
    [M + 1]; saving a second sentinel item next stores it with [M + 2], so
    the two numbers are distinct and increasing; saving an item whose
    sequence number is not -1 puts it under its id as it is. *)
Theorem save_sequence_assignment
  (db : Store) (M : Z) (a b c : SavedItem) :
  numbered db ->
  maxSequence db M ->
  Item.sequenceNumber a = -1 ->
  Item.sequenceNumber b = -1 ->
  Item.sequenceNumber c <> -1 ->
  (fst (save a db) = Item.with_sequenceNumber (M + 1) a
   /\ snd (save a db) !! Item.id a
      = Some (Item.with_sequenceNumber (M + 1) a))
  /\ (fst (save b (snd (save a db))) = Item.with_sequenceNumber (M + 2) b
      /\ snd (save b (snd (save a db))) !! Item.id b
         = Some (Item.with_sequenceNumber (M + 2) b)
      /\ Item.sequenceNumber (fst (save a db))
         < Item.sequenceNumber (fst (save b (snd (save a db)))))
  /\ save c db = (c, <[Item.id c := c]> db).
Proof.
  intros Hn HM. apply save_sequence_from_zero.
  now apply numbered_maxSequence.
Qed.

(* ===================================================================== *)
(** * Intent extraction *)
(* ===================================================================== *)

Section Fallback.
Context {casing : Casing}.

(** Under the fallback intent of an unparsable response the fallback adds
    nothing: its only keyword is the whole query, which the haystack cannot
    contain unless it contains every word of it. *)
Lemma matchesText_fallback searchQuery item :
  (forall s, toLowerCase (trim s) = trim (toLowerCase s)) ->
  matchesText (queryWords (trim (toLowerCase searchQuery)))
    (Some (Intent.mk [trim searchQuery] [] (trim searchQuery) None None)) item
  = matchesAllWords (queryWords (trim (toLowerCase searchQuery))) item.
Proof.
  intros Hc. unfold matchesText.
  destruct (matchesAllWords _ item) eqn:E; [reflexivity|].
  cbn [Intent.keywords Intent.topics matchesAiTopic existsb].
  rewrite orb_false_r. unfold matchesAiKeyword. cbn [existsb].
  rewrite orb_false_r, Hc.
  destruct (includes _ _) eqn:Ei; [|reflexivity].
  apply includes_spec in Ei. rewrite <- E. symmetry.
  apply matchesAllWords_spec, List.Forall_forall. intros w Hw.
  eapply isSubstring_trans; [|exact Ei]. now apply queryWords_substring.
Qed.

Lemma filteredItems_fallback items searchQuery activeFilter :
  (forall s, toLowerCase (trim s) = trim (toLowerCase s)) ->
  filteredItems items searchQuery activeFilter
    (Some (Intent.mk [trim searchQuery] [] (trim searchQuery) None None))
  = filteredItems items searchQuery activeFilter None.
Proof.
  intros Hc. unfold filteredItems, limitStage, resolveSortMode.
  cbn [Intent.limit Intent.sortBy]. f_equal.
  unfold textStage. destruct (truthy _); [|reflexivity].
  apply filter_ext. intros item.
  now rewrite matchesText_fallback, matchesText_absent.
Qed.

(** C8, as the code has it.  A query of at most three code units once
    trimmed, and a request that rejects, leave the intent absent.  A response
    that does not parse does not: [getSearchIntent] catches the parse error
    and resolves with the fallback intent whose only keyword is the trimmed
    query, with no topics, no sort mode and no limit, and the effect stores
    that intent.  A response that parses is stored as it is.  Under the
    fallback intent the pipeline returns what it returns without an intent,
    lower-casing commuting with trimming. *)
Theorem intent_after_extraction (searchQuery : jsstring) :
  intentEffect searchQuery RequestRejects = None
  /\ (forall world,
        (length (trim searchQuery) <= 3)%nat ->
        intentEffect searchQuery world = None)
  /\ (forall text,
        (3 < length (trim searchQuery))%nat ->
        intentEffect searchQuery (ResponseUnparsable text)
        = Some (Intent.mk [trim searchQuery] [] (trim searchQuery) None None))
  /\ (forall text value,
        (3 < length (trim searchQuery))%nat ->
        intentEffect searchQuery (ResponseParsed text value) = Some value)
  /\ ((forall s, toLowerCase (trim s) = trim (toLowerCase s)) ->
      forall items activeFilter text,
        filteredItems items searchQuery activeFilter
          (intentEffect searchQuery (ResponseUnparsable text))
        = filteredItems items searchQuery activeFilter None).
Proof.
  unfold intentEffect. repeat split.
  - now destruct (_ <? _)%nat.
  - intros world H. apply Nat.ltb_ge in H. now rewrite H.
  - intros text H. apply Nat.ltb_lt in H. now rewrite H.
  - intros text value H. apply Nat.ltb_lt in H. now rewrite H.
  - intros Hc items activeFilter text.
    destruct (_ <? _)%nat; [|reflexivity].
    now apply filteredItems_fallback.
Qed.

End Fallback.

(* ===================================================================== *)
(** * The normalizer and the trigger table *)
(* ===================================================================== *)

(** The chain of conditionals of [normalizeTopic] is the look-up in the
    ordered table. *)
Lemma normalizeTopic_table {casing : Casing} (topic : jsstring) :
  normalizeTopic topic = normalizeByTable topic.
Proof.
  unfold normalizeTopic, normalizeByTable, classify, capitalize, triggerTable.
  set (t := trim (toLowerCase topic)).
  cbn [List.find existsb snd fst].
  repeat match goal with
         | |- context [includes t ?x] =>
             destruct (includes t x); cbn [orb]; try reflexivity
         end.
Qed.

(* ===================================================================== *)
(** * Idempotence of the normalizer on Basic Latin *)
(* ===================================================================== *)

Section Latin.
#[local] Existing Instance ecma_casing.

(** The outcome of the last branch of [normalizeTopic]. *)
Lemma normalizeTopic_cases (t1 t2 : jsstring) :
  trim (toLowerCase t1) = trim (toLowerCase t2) ->
  (normalizeTopic t1 = normalizeTopic t2
   /\ In (normalizeTopic t1) canonicalTopics)
  \/ (normalizeTopic t1 = capitalize t1 /\ normalizeTopic t2 = capitalize t2).
Proof.
  intros H. unfold normalizeTopic, capitalize. rewrite H.
  set (t := trim (toLowerCase t2)).
  repeat match goal with
         | |- context [if ?b then _ else _] => destruct b
         end;
    try (left; split; [reflexivity | unfold canonicalTopics; simpl; tauto]).
  right. split; reflexivity.
Qed.

Lemma canonical_fixed c : In c canonicalTopics -> normalizeTopic c = c.
Proof.
  unfold canonicalTopics. simpl.
  intros [<- | [<- | [<- | [<- | [<- | [<- | []]]]]]]; reflexivity.
Qed.

Lemma below_128 (P : N -> bool) :
  forallb P (List.map N.of_nat (seq 0 128)) = true ->
  forall c, (c < 128)%N -> P c = true.
Proof.
  intros H c Hc. rewrite forallb_forall in H. apply H.
  apply in_map_iff. exists (N.to_nat c). split; [apply N2Nat.id|].
  apply in_seq. lia.
Qed.

Lemma lower_upper_unit c :
  (c < 128)%N -> List.map lowerUnit (upperUnit c) = [lowerUnit c].
Proof.
  intros Hc.
  apply (below_128 (fun c => bool_decide
                               (List.map lowerUnit (upperUnit c)
                                = [lowerUnit c])))
    in Hc; [now apply bool_decide_eq_true in Hc | now vm_compute].
Qed.

Lemma lowerUnit_cases c :
  (lowerUnit c = c + 32
   /\ (97 <= c + 32 <= 122 \/ 224 <= c + 32 <= 254 /\ c + 32 <> 247))%N
  \/ (lowerUnit c = c
      /\ (c < 65 \/ 90 < c) /\ (c < 192 \/ 222 < c \/ c = 215))%N.
Proof.
  unfold lowerUnit.
  destruct (N.leb_spec 65 c), (N.leb_spec c 90), (N.leb_spec 192 c),
    (N.leb_spec c 222), (N.eqb_spec c 215); simpl; lia.
Qed.

Lemma lowerUnit_fixed c :
  (c < 65 \/ 90 < c)%N -> (c < 192 \/ 222 < c \/ c = 215)%N -> lowerUnit c = c.
Proof.
  intros H1 H2. unfold lowerUnit.
  destruct (N.leb_spec 65 c), (N.leb_spec c 90), (N.leb_spec 192 c),
    (N.leb_spec c 222), (N.eqb_spec c 215); simpl; lia.
Qed.

Lemma lower_lower_unit c : lowerUnit (lowerUnit c) = lowerUnit c.
Proof.
  destruct (lowerUnit_cases c) as [[-> H] | [-> [H1 H2]]];
    apply lowerUnit_fixed; lia.
Qed.

Lemma letters_not_white c :
  (33 <= c <= 159 \/ 161 <= c <= 5759)%N -> isWhiteSpace c = false.
Proof.
  intros H. unfold isWhiteSpace.
  rewrite !orb_false_iff, !andb_false_iff, !N.eqb_neq, !N.leb_gt. lia.
Qed.

Lemma lowerUnit_isWhiteSpace c : isWhiteSpace (lowerUnit c) = isWhiteSpace c.
Proof.
  destruct (lowerUnit_cases c) as [[-> H] | [-> _]]; [|reflexivity].
  rewrite !letters_not_white; [reflexivity | lia | lia].
Qed.

Lemma upper_unit_shape c :
  (c < 128)%N ->
  exists u, upperUnit c = [u] /\ upperUnit u = [u].
Proof.
  intros Hc.
  apply (below_128 (fun c => match upperUnit c with
                             | [u] => bool_decide (upperUnit u = [u])
                             | _ => false
                             end))
    in Hc; [|now vm_compute].
  destruct (upperUnit c) as [|u [|? ?]]; try discriminate.
  exists u. split; [reflexivity | now apply bool_decide_eq_true in Hc].
Qed.

Lemma lower_lower s : toLowerCase (toLowerCase s) = toLowerCase s.
Proof.
  simpl. rewrite List.map_map. apply map_ext. intros c. apply lower_lower_unit.
Qed.

Lemma lower_capitalize s : isAscii s -> toLowerCase (capitalize s) = toLowerCase s.
Proof.
  intros H. destruct H as [|c s Hc Hs]; [reflexivity|].
  unfold capitalize. cbn [charAt0 slice1 tl].
  change (toLowerCase (toUpperCase [c] ++ toLowerCase s))
    with (List.map lowerUnit (flat_map upperUnit [c] ++ toLowerCase s)).
  simpl flat_map. rewrite app_nil_r, List.map_app.
  rewrite lower_upper_unit by exact Hc.
  change (List.map lowerUnit (toLowerCase s)) with (toLowerCase (toLowerCase s)).
  now rewrite lower_lower.
Qed.

Lemma capitalize_capitalize s : isAscii s -> capitalize (capitalize s) = capitalize s.
Proof.
  intros H. destruct H as [|c s Hc Hs]; [reflexivity|].
  unfold capitalize. cbn [charAt0 slice1 tl].
  change (toUpperCase [c]) with (flat_map upperUnit [c]).
  simpl flat_map. rewrite app_nil_r.
  destruct (upper_unit_shape c Hc) as [u [-> Hu]].
  cbn [app charAt0 slice1 tl].
  change (toUpperCase [u]) with (flat_map upperUnit [u]).
  simpl flat_map. rewrite app_nil_r, Hu. now rewrite lower_lower.
Qed.

Lemma trimStart_lower s :
  trimStart (toLowerCase s) = toLowerCase (trimStart s).
Proof.
  simpl. induction s as [|c s IH]; simpl; [reflexivity|].
  rewrite lowerUnit_isWhiteSpace. now destruct (isWhiteSpace c).
Qed.

Lemma lower_trim s : toLowerCase (trim s) = trim (toLowerCase s).
Proof.
  unfold trim, trimEnd. rewrite trimStart_lower.
  change (toLowerCase (rev (trimStart (rev (trimStart s)))))
    with (List.map lowerUnit (rev (trimStart (rev (trimStart s))))).
  rewrite List.map_rev. f_equal.
  change (List.map lowerUnit (trimStart (rev (trimStart s))))
    with (toLowerCase (trimStart (rev (trimStart s)))).
  rewrite <- trimStart_lower. f_equal. simpl. now rewrite List.map_rev.
Qed.

(** C9, on Basic Latin.  [normalizeTopic] looks the lower-cased, trimmed
    topic up in the ordered trigger table (Finance, Fitness, Food, Tech,
    Travel, Fashion) and otherwise returns the topic with its first character
    upper-cased and the rest lower-cased; and for every topic string of ASCII
    code units, normalizing a normalized topic changes nothing. *)
Theorem normalizeTopic_idempotent_ascii (t : jsstring) :
  isAscii t ->
  normalizeTopic t = normalizeByTable t
  /\ normalizeTopic (normalizeTopic t) = normalizeTopic t.
Proof.
  intros Ht. split; [apply normalizeTopic_table|].
  destruct (normalizeTopic_cases t t eq_refl) as [[_ Hc] | [Hf _]].
  - now apply canonical_fixed.
  - rewrite Hf.
    destruct (normalizeTopic_cases (capitalize t) t) as [[E Hc] | [E1 E2]].
    + now rewrite lower_capitalize.
    + now rewrite E.
    + rewrite E1. now apply capitalize_capitalize.
Qed.

(** ** The wording of the topic fallback, read up to case, on Basic Latin *)

Lemma trigger_in_canonical cj xsj c xs x :
  In (cj, xsj) triggerTable -> In (c, xs) triggerTable -> In x xs ->
  includes (toLowerCase cj) x = true -> c = cj.
Proof.
  assert (H : forallb (fun rowj =>
                forallb (fun row =>
                  forallb (fun x =>
                    implb (includes (toLowerCase (fst rowj)) x)
                          (bool_decide (fst row = fst rowj)))
                    (snd row))
                  triggerTable)
                triggerTable = true) by (vm_compute; reflexivity).
  intros Hj Hrow Hx Hi. rewrite forallb_forall in H. specialize (H _ Hj).
  rewrite forallb_forall in H. specialize (H _ Hrow).
  rewrite forallb_forall in H. specialize (H _ Hx).
  cbn [fst snd] in H. rewrite Hi in H. now apply bool_decide_eq_true in H.
Qed.

Lemma canonical_lower_is_trigger c xs :
  In (c, xs) triggerTable -> In (toLowerCase c) xs.
Proof.
  assert (H : forallb (fun row =>
                existsb (fun x => bool_decide (toLowerCase (fst row) = x))
                        (snd row))
                triggerTable = true) by (vm_compute; reflexivity).
  intros Hrow. rewrite forallb_forall in H. specialize (H _ Hrow).
  apply existsb_exists in H as [x [Hx E]].
  apply bool_decide_eq_true in E. cbn [fst snd] in *. now rewrite E.
Qed.

Lemma canonical_classified c xs :
  In (c, xs) triggerTable -> classify (trim (toLowerCase c)) = Some c.
Proof.
  assert (H : forallb (fun row =>
                bool_decide (classify (trim (toLowerCase (fst row)))
                             = Some (fst row)))
                triggerTable = true) by (vm_compute; reflexivity).
  intros Hrow. rewrite forallb_forall in H. specialize (H _ Hrow).
  now apply bool_decide_eq_true in H.
Qed.

Lemma classify_within_canonical cj xsj u c :
  In (cj, xsj) triggerTable -> isSubstring u (toLowerCase cj) ->
  classify (trim u) = Some c -> c = cj.
Proof.
  intros Hj Hu Hc. apply classify_Some in Hc as [xs [x [Hrow [Hx Hi]]]].
  apply (trigger_in_canonical cj xsj c xs x Hj Hrow Hx).
  apply includes_spec. apply includes_spec in Hi.
  eapply isSubstring_trans; [exact Hi|].
  eapply isSubstring_trans; [apply trim_substring | exact Hu].
Qed.

Lemma lower_normalizeTopic t :
  isAscii t ->
  toLowerCase (normalizeTopic t)
  = match classify (trim (toLowerCase t)) with
    | Some c => toLowerCase c
    | None => toLowerCase t
    end.
Proof.
  intros Ht. rewrite normalizeTopic_table. unfold normalizeByTable.
  destruct (classify _); [reflexivity | now apply lower_capitalize].
Qed.

(** When the intent topic hits the table, either test of the fallback holds
    only if the two normalized forms are equal up to case. *)
Lemma triggered_topic_matches t topic ck u :
  isAscii topic ->
  classify (trim (toLowerCase t)) = Some ck ->
  u = toLowerCase t \/ u = toLowerCase ck ->
  includes (toLowerCase (normalizeTopic topic)) u = true ->
  toLowerCase ck = toLowerCase (normalizeTopic topic).
Proof.
  intros Htopic Hk Hu Hi. apply includes_spec in Hi.
  rewrite lower_normalizeTopic in * by exact Htopic.
  assert (Hcu : classify (trim u) = Some ck).
  { destruct Hu as [-> | ->]; [exact Hk|].
    apply classify_Some in Hk as [xs [_ [Hrow _]]].
    now apply (canonical_classified ck xs). }
  destruct (classify (trim (toLowerCase topic))) as [cj|] eqn:Ej.
  - apply classify_Some in Ej as [xsj [_ [Hj _]]].
    now rewrite (classify_within_canonical cj xsj u ck Hj Hi Hcu).
  - exfalso. apply classify_Some in Hcu as [xs [x [Hrow [Hx Hix]]]].
    pose proof (classify_None _ _ _ _ Ej Hrow Hx) as Hnone.
    rewrite (proj2 (includes_spec _ _)) in Hnone; [discriminate|].
    apply substring_trim; [now apply (triggers_solid _ _ _ Hrow)|].
    apply includes_spec in Hix.
    eapply isSubstring_trans; [exact Hix|].
    eapply isSubstring_trans; [apply trim_substring | exact Hi].
Qed.

Lemma aiTopic_test_up_to_case t topic :
  isAscii t -> isAscii topic ->
  includes (toLowerCase (normalizeTopic topic)) (toLowerCase t)
  || strictEq (toLowerCase (normalizeTopic t))
              (toLowerCase (normalizeTopic topic))
  = includes (toLowerCase (normalizeTopic topic))
             (toLowerCase (normalizeTopic t))
    || strictEq (toLowerCase (normalizeTopic t))
                (toLowerCase (normalizeTopic topic)).
Proof.
  intros Ht Htopic. rewrite (lower_normalizeTopic t Ht).
  destruct (classify (trim (toLowerCase t))) as [ck|] eqn:Ek; [|reflexivity].
  destruct (strictEq (toLowerCase ck) (toLowerCase (normalizeTopic topic)))
    eqn:Es; [now rewrite !orb_true_r|].
  apply strictEq_false in Es. rewrite !orb_false_r.
  destruct (includes _ (toLowerCase t)) eqn:E1.
  { exfalso. apply Es.
    apply (triggered_topic_matches t topic ck _ Htopic Ek (or_introl eq_refl) E1). }
  destruct (includes _ (toLowerCase ck)) eqn:E2; [|reflexivity].
  exfalso. apply Es.
  apply (triggered_topic_matches t topic ck _ Htopic Ek (or_intror eq_refl) E2).
Qed.

(** X26. On ASCII topics the code and the wording read up to case agree: when
    the all-words match fails and an intent is present, the text filter keeps
    the item iff some intent keyword, lower-cased, occurs in the haystack, or
    some intent topic, normalized and lower-cased, occurs in or equals the
    lower-cased normalized item topic. *)
Lemma intent_fallback_up_to_case_ascii
  (result : list SavedItem) (query : jsstring)
  (intent : SearchIntentResponse) (item : SavedItem) :
  isAscii (Item.topic item) ->
  Forall isAscii (Intent.topics intent) ->
  In item result ->
  ~ Forall (fun w => isSubstring w (searchableText item)) (queryWords query) ->
  (In item (textStage query (Some intent) result)
   <-> claimedFallbackIgnoreCase intent item).
Proof.
  intros Htopic Htopics Hin Hfail. unfold textStage.
  rewrite (primary_fails_truthy _ _ Hfail), filter_In.
  unfold matchesText. rewrite (primary_fails_query _ _ Hfail).
  rewrite orb_true_iff, matchesAiKeyword_spec.
  unfold claimedFallbackIgnoreCase, matchesAiTopic.
  rewrite existsb_exists.
  assert (E : (exists t, In t (Intent.topics intent)
                 /\ includes (toLowerCase (normalizeTopic (Item.topic item)))
                             (toLowerCase t)
                    || strictEq (toLowerCase (normalizeTopic t))
                                (toLowerCase (normalizeTopic (Item.topic item)))
                    = true)
              <-> (exists t, In t (Intent.topics intent)
                     /\ (isSubstring (toLowerCase (normalizeTopic t))
                           (toLowerCase (normalizeTopic (Item.topic item)))
                         \/ toLowerCase (normalizeTopic t)
                            = toLowerCase (normalizeTopic (Item.topic item))))).
  { split; intros [t [Hi H]]; exists t; (split; [exact Hi|]);
      pose proof (proj1 (List.Forall_forall _ _) Htopics t Hi) as Ht.
    - rewrite (aiTopic_test_up_to_case t _ Ht Htopic) in H.
      apply orb_true_iff in H.
      now rewrite includes_spec, strictEq_true in H.
    - rewrite (aiTopic_test_up_to_case t _ Ht Htopic).
      apply orb_true_iff. now rewrite includes_spec, strictEq_true. }
  tauto.
Qed.

End Latin.

(* ===================================================================== *)
(** * The properties at concrete inputs *)
(* ===================================================================== *)

Section Concrete.
#[local] Existing Instance ecma_casing.

Lemma all_words_match_included_witness :
  In (reel "a" "Finance reel tips" "Crypto Trading" [] 100 1 0)
     (categoryStage (lit "all")
        [reel "a" "Finance reel tips" "Crypto Trading" [] 100 1 0])
  /\ queryWords (trim (toLowerCase (lit " REEL  finance "))) <> []
  /\ Forall (fun w => isSubstring w
               (searchableText
                  (reel "a" "Finance reel tips" "Crypto Trading" [] 100 1 0)))
       (queryWords (trim (toLowerCase (lit " REEL  finance "))))
  /\ In (reel "a" "Finance reel tips" "Crypto Trading" [] 100 1 0)
       (textStage (trim (toLowerCase (lit " REEL  finance "))) None
          (categoryStage (lit "all")
             [reel "a" "Finance reel tips" "Crypto Trading" [] 100 1 0])).
Proof.
  assert (H1 : In (reel "a" "Finance reel tips" "Crypto Trading" [] 100 1 0)
                 (categoryStage (lit "all")
                    [reel "a" "Finance reel tips" "Crypto Trading" [] 100 1 0])).
  { left. reflexivity. }
  assert (H2 : queryWords (trim (toLowerCase (lit " REEL  finance "))) <> []).
  { vm_compute. discriminate. }
  assert (H3 : Forall (fun w => isSubstring w
               (searchableText
                  (reel "a" "Finance reel tips" "Crypto Trading" [] 100 1 0)))
       (queryWords (trim (toLowerCase (lit " REEL  finance "))))).
  { apply forallb_includes. vm_compute. reflexivity. }
  split; [exact H1 | split; [exact H2 | split; [exact H3|]]].
  exact (all_words_match_included _ _ _ None _ H1 H2 H3).
Defined.

Lemma intent_fallback_decides_witness :
  In (reel "a" "Budget basics" "Finance" [] 100 1 0)
     [reel "a" "Budget basics" "Finance" [] 100 1 0]
  /\ ~ Forall (fun w => isSubstring w
                 (searchableText (reel "a" "Budget basics" "Finance" [] 100 1 0)))
         (queryWords (lit "zzz"))
  /\ (In (reel "a" "Budget basics" "Finance" [] 100 1 0)
         (textStage (lit "zzz")
            (Some (Intent.mk [] [lit "an"] (lit "zzz") None None))
            [reel "a" "Budget basics" "Finance" [] 100 1 0])
      <-> (exists k, In k []
             /\ isSubstring (toLowerCase k)
                  (searchableText
                     (reel "a" "Budget basics" "Finance" [] 100 1 0)))
          \/ (exists t, In t [lit "an"]
                /\ (isSubstring (toLowerCase t)
                      (toLowerCase (normalizeTopic (lit "Finance")))
                    \/ toLowerCase (normalizeTopic t)
                       = toLowerCase (normalizeTopic (lit "Finance"))))).
Proof.
  assert (H1 : In (reel "a" "Budget basics" "Finance" [] 100 1 0)
                 [reel "a" "Budget basics" "Finance" [] 100 1 0]).
  { left. reflexivity. }
  assert (H2 : ~ Forall (fun w => isSubstring w
                 (searchableText (reel "a" "Budget basics" "Finance" [] 100 1 0)))
         (queryWords (lit "zzz"))).
  { intros H. apply forallb_includes in H. vm_compute in H. discriminate. }
  split; [exact H1 | split; [exact H2|]].
  exact (intent_fallback_decides _ _
           (Intent.mk [] [lit "an"] (lit "zzz") None None) _ H1 H2).
Defined.

(** C3, as the specification words it, fails.  With the intent topic "an"
    and an item of topic "Finance" that the query "zzz" does not match, the
    code keeps the item ("an" occurs in "finance"), while "An", the
    normalized intent topic, neither occurs in nor equals "Finance".  Read up
    to case the wording fails as well: with the intent topic U+00DF and an
    item of topic "x" followed by U+00DF the code keeps the item, while the
    normalized intent topic is "SS". *)
Lemma intent_fallback_as_worded_fails :
  ~ (forall result query intent item,
       In item result ->
       ~ Forall (fun w => isSubstring w (searchableText item))
           (queryWords query) ->
       (In item (textStage query (Some intent) result)
        <-> claimedFallback intent item))
  /\ ~ (forall result query intent item,
         In item result ->
         ~ Forall (fun w => isSubstring w (searchableText item))
             (queryWords query) ->
         (In item (textStage query (Some intent) result)
          <-> claimedFallbackIgnoreCase intent item)).
Proof.
  split.
  - intros H.
    specialize (H [reel "a" "Budget basics" "Finance" [] 100 1 0] (lit "zzz")
                  (Intent.mk [] [lit "an"] (lit "zzz") None None)
                  (reel "a" "Budget basics" "Finance" [] 100 1 0)).
    destruct H as [H _].
    + left. reflexivity.
    + intros H. apply forallb_includes in H. vm_compute in H. discriminate.
    + destruct H as [[k [[] _]] | [t [Ht H]]].
      * vm_compute. left. reflexivity.
      * destruct Ht as [<- | []]. destruct H as [H | H].
        -- apply includes_spec in H. vm_compute in H. discriminate.
        -- vm_compute in H. discriminate.
  - intros H.
    specialize (H [Item.mk (lit "a") [] (lit "Budget basics") [] [] [] INSTAGRAM
                     [] [120%N; 223%N] [] 100 1 0 None None] (lit "zzz")
                  (Intent.mk [] [[223%N]] (lit "zzz") None None)
                  (Item.mk (lit "a") [] (lit "Budget basics") [] [] [] INSTAGRAM
                     [] [120%N; 223%N] [] 100 1 0 None None)).
    destruct H as [H _].
    + left. reflexivity.
    + intros H. apply forallb_includes in H. vm_compute in H. discriminate.
    + destruct H as [[k [[] _]] | [t [Ht H]]].
      * vm_compute. left. reflexivity.
      * destruct Ht as [<- | []]. destruct H as [H | H].
        -- apply includes_spec in H. vm_compute in H. discriminate.
        -- vm_compute in H. discriminate.
Qed.

(** C4, as the specification words it, fails: two items with the same
    engagementScore and the same dateAdded stand in one order only, while
    each has a dateAdded not less than the other's. *)
Lemma engagement_tie_break_iff_fails :
  ~ (forall items a b,
       In a (rankStage EngagementDesc items) ->
       In b (rankStage EngagementDesc items) ->
       Item.engagementScore a = Item.engagementScore b ->
       (precedes a b (rankStage EngagementDesc items)
        <-> Item.dateAdded a >= Item.dateAdded b)).
Proof.
  intros H.
  specialize (H [reel "x" "One" "Food" [] 500 1 10;
                 reel "y" "Two" "Food" [] 500 2 10]
                (reel "y" "Two" "Food" [] 500 2 10)
                (reel "x" "One" "Food" [] 500 1 10)).
  change (rankStage EngagementDesc
            [reel "x" "One" "Food" [] 500 1 10;
             reel "y" "Two" "Food" [] 500 2 10])
    with [reel "x" "One" "Food" [] 500 1 10;
          reel "y" "Two" "Food" [] 500 2 10] in H.
  destruct H as [_ H].
  - right. left. reflexivity.
  - left. reflexivity.
  - reflexivity.
  - destruct H as [i [j [Hij [Hi Hj]]]]; [simpl; lia|].
    destruct j as [|[|j]]; [lia | | discriminate].
    vm_compute in Hj. discriminate.
Qed.

Lemma store_one_In (x i : SavedItem) :
  In i (getAllItems (saveItem x ∅)) -> i = x.
Proof.
  intros H. apply getAllItems_In in H as [k Hk]. unfold saveItem in Hk.
  apply lookup_insert_Some in Hk as [[_ ->] | [_ Hk]]; [reflexivity|].
  now rewrite lookup_empty in Hk.
Qed.

Lemma store_one_keyed (x : SavedItem) : keyed (saveItem x ∅).
Proof.
  intros k i Hk. unfold saveItem in Hk.
  apply lookup_insert_Some in Hk as [[<- <-] | [_ Hk]]; [reflexivity|].
  now rewrite lookup_empty in Hk.
Qed.

Lemma store_one_max (x : SavedItem) :
  0 <= Item.sequenceNumber x ->
  maxSequenceOrZero (saveItem x ∅) (Item.sequenceNumber x).
Proof.
  intros H. split; [exact H | split].
  - intros i Hi. apply store_one_In in Hi. subst i. lia.
  - right. exists x. split; [|reflexivity].
    apply getAllItems_In. exists (Item.id x). apply lookup_insert_eq.
Qed.

Lemma save_sequence_assignment_witness :
  numbered (saveItem (reel "a" "One" "Food" [] 100 3 0) ∅)
  /\ maxSequence (saveItem (reel "a" "One" "Food" [] 100 3 0) ∅) 3
  /\ Item.sequenceNumber (reel "b" "Two" "Food" [] 200 (-1) 0) = -1
  /\ Item.sequenceNumber (reel "c" "Three" "Food" [] 300 (-1) 0) = -1
  /\ Item.sequenceNumber (reel "a" "One again" "Food" [] 400 3 0) <> -1
  /\ fst (save (reel "b" "Two" "Food" [] 200 (-1) 0)
            (saveItem (reel "a" "One" "Food" [] 100 3 0) ∅))
     = reel "b" "Two" "Food" [] 200 4 0
  /\ fst (save (reel "c" "Three" "Food" [] 300 (-1) 0)
            (snd (save (reel "b" "Two" "Food" [] 200 (-1) 0)
                   (saveItem (reel "a" "One" "Food" [] 100 3 0) ∅))))
     = reel "c" "Three" "Food" [] 300 5 0
  /\ save (reel "a" "One again" "Food" [] 400 3 0)
        (saveItem (reel "a" "One" "Food" [] 100 3 0) ∅)
     = (reel "a" "One again" "Food" [] 400 3 0,
        <[lit "a" := reel "a" "One again" "Food" [] 400 3 0]>
          (saveItem (reel "a" "One" "Food" [] 100 3 0) ∅)).
Proof.
  assert (Hn : numbered (saveItem (reel "a" "One" "Food" [] 100 3 0) ∅)).
  { intros i Hi. apply store_one_In in Hi. subst i. simpl. lia. }
  assert (HM : maxSequence
                 (saveItem (reel "a" "One" "Food" [] 100 3 0) ∅) 3).
  { right. split.
    - exists (reel "a" "One" "Food" [] 100 3 0). split; [|reflexivity].
      apply getAllItems_In. exists (lit "a"). apply lookup_insert_eq.
    - intros i Hi. apply store_one_In in Hi. subst i. simpl. lia. }
  assert (Hc : Item.sequenceNumber (reel "a" "One again" "Food" [] 400 3 0)
               <> -1).
  { simpl. lia. }
  destruct (save_sequence_assignment _ 3
              (reel "b" "Two" "Food" [] 200 (-1) 0)
              (reel "c" "Three" "Food" [] 300 (-1) 0)
              (reel "a" "One again" "Food" [] 400 3 0)
              Hn HM eq_refl eq_refl Hc) as [[Ha _] [[Hb _] Hs]].
  split; [exact Hn | split; [exact HM | split; [reflexivity|]]].
  split; [reflexivity|].
  split; [exact Hc | split; [exact Ha | split; [exact Hb | exact Hs]]].
Defined.

(** The numbers of the store have to be ones that [save] gave out: the fold
    starts from 0, so over the single stored number -5, which no operation
    of the program stores, a sentinel item is given 1, not -4. *)
Lemma save_sequence_negative_store :
  ~ (forall (db : Store) M item,
       maxSequence db M ->
       Item.sequenceNumber item = -1 ->
       Item.sequenceNumber (fst (save item db)) = M + 1).
Proof.
  intros H.
  specialize (H (saveItem (reel "a" "One" "Food" [] 100 (-5) 0) ∅) (-5)
                (reel "b" "Two" "Food" [] 200 (-1) 0)).
  assert (E : Item.sequenceNumber
                (fst (save (reel "b" "Two" "Food" [] 200 (-1) 0)
                        (saveItem (reel "a" "One" "Food" [] 100 (-5) 0) ∅)))
              = 1).
  { vm_compute. reflexivity. }
  rewrite E in H. discriminate H; [|reflexivity].
  right. split.
  - exists (reel "a" "One" "Food" [] 100 (-5) 0). split; [|reflexivity].
    apply getAllItems_In. exists (lit "a"). apply lookup_insert_eq.
  - intros i Hi. apply store_one_In in Hi. subst i. simpl. lia.
Qed.

Lemma updateEnrichment_merges_witness :
  keyed (saveItem (reel "a" "Instagram Reel" "Uncategorized"
                     [lit "saving"; lit "reel"] 100 1 0) ∅)
  /\ saveItem (reel "a" "Instagram Reel" "Uncategorized"
                 [lit "saving"; lit "reel"] 100 1 0) ∅ !! lit "a"
     = Some (reel "a" "Instagram Reel" "Uncategorized"
               [lit "saving"; lit "reel"] 100 1 0)
  /\ exists stored,
       updateEnrichment (lit "a")
         (Enrichment.mk [lit "pasta"; lit "reel"; lit "pasta"] (lit "Food")
            (lit "A pasta recipe.") (Some (lit "Quick pasta")) (Some 718000))
         (saveItem (reel "a" "Instagram Reel" "Uncategorized"
                      [lit "saving"; lit "reel"] 100 1 0) ∅)
       = <[lit "a" := stored]>
           (saveItem (reel "a" "Instagram Reel" "Uncategorized"
                        [lit "saving"; lit "reel"] 100 1 0) ∅)
       /\ Item.tags stored = [lit "saving"; lit "reel"; lit "pasta"]
       /\ Item.topic stored = lit "Food"
       /\ Item.engagementScore stored = 718000
       /\ Item.title stored = lit "Quick pasta"
       /\ Item.isEnriching stored = Some false
       /\ Item.sequenceNumber stored = 1.
Proof.
  assert (Hk : keyed (saveItem (reel "a" "Instagram Reel" "Uncategorized"
                                  [lit "saving"; lit "reel"] 100 1 0) ∅)).
  { apply store_one_keyed. }
  assert (Hi : saveItem (reel "a" "Instagram Reel" "Uncategorized"
                           [lit "saving"; lit "reel"] 100 1 0) ∅ !! lit "a"
               = Some (reel "a" "Instagram Reel" "Uncategorized"
                         [lit "saving"; lit "reel"] 100 1 0)).
  { apply lookup_insert_eq. }
  split; [exact Hk | split; [exact Hi|]].
  destruct (updateEnrichment_merges _ _ _
              (Enrichment.mk [lit "pasta"; lit "reel"; lit "pasta"] (lit "Food")
                 (lit "A pasta recipe.") (Some (lit "Quick pasta"))
                 (Some 718000))
              Hk Hi)
    as [stored [E [[Htags _] [Htopic [_ [[Heng _] [[Htitle _] [Hflag Hrest]]]]]]]].
  exists stored. split; [exact E|].
  split; [rewrite Htags; vm_compute; reflexivity|].
  split; [exact Htopic|].
  split; [apply Heng; [reflexivity | discriminate]|].
  split; [apply Htitle; [left; reflexivity | reflexivity | discriminate]|].
  split; [exact Hflag | apply Hrest].
Defined.

Lemma updateEnrichment_unknown_id_witness :
  (forall item,
     In item (getAllItems (saveItem (reel "a" "One" "Food" [] 100 1 0) ∅)) ->
     Item.id item <> lit "b")
  /\ updateEnrichment (lit "b")
       (Enrichment.mk [lit "pasta"] (lit "Food") (lit "A pasta recipe.")
          None None)
       (saveItem (reel "a" "One" "Food" [] 100 1 0) ∅)
     = saveItem (reel "a" "One" "Food" [] 100 1 0) ∅.
Proof.
  assert (H : forall item,
             In item (getAllItems (saveItem (reel "a" "One" "Food" [] 100 1 0) ∅)) ->
             Item.id item <> lit "b").
  { intros item Hi. apply store_one_In in Hi. subst item. discriminate. }
  split; [exact H|].
  exact (updateEnrichment_unknown_id _ (lit "b") _ H).
Defined.

(** C8, as the specification words it, fails: a response that does not parse
    is an extraction failure, and after it the intent is present. *)
Lemma unparsable_response_leaves_intent :
  ~ (forall searchQuery world,
       extractionFails world -> intentEffect searchQuery world = None).
Proof.
  intros H.
  specialize (H (lit "last finance reel") (ResponseUnparsable (lit "<html>"))).
  discriminate H. right. now exists (lit "<html>").
Qed.

(** C9, as the specification words it, fails on U+00DF (sharp s): it is
    normalized to "SS", and "SS" is normalized to "Ss". *)
Lemma normalizeTopic_not_idempotent :
  ~ (forall t : jsstring, normalizeTopic (normalizeTopic t) = normalizeTopic t).
Proof. intros H. specialize (H [223%N]). vm_compute in H. discriminate. Qed.

Lemma normalizeTopic_idempotent_ascii_witness :
  isAscii (lit " cOMEDY clips")
  /\ normalizeTopic (lit " cOMEDY clips") = lit " comedy clips"
  /\ normalizeTopic (normalizeTopic (lit " cOMEDY clips"))
     = normalizeTopic (lit " cOMEDY clips").
Proof.
  assert (H : isAscii (lit " cOMEDY clips")).
  { repeat constructor. }
  split; [exact H | split; [reflexivity|]].
  exact (proj2 (normalizeTopic_idempotent_ascii _ H)).
Defined.

Lemma intent_after_extraction_witness :
  (forall s, toLowerCase (trim s) = trim (toLowerCase s))
  /\ intentEffect (lit " most liked recipes ") (ResponseUnparsable (lit "<html>"))
     = Some (Intent.mk [lit "most liked recipes"] [] (lit "most liked recipes")
               None None)
  /\ filteredItems [reel "1" "Bitcoin basics" "Crypto Trading" [] 100 1 0;
                    reel "2" "Most liked recipes" "Recipes" [] 200 2 500]
       (lit " most liked recipes ") (lit "all")
       (intentEffect (lit " most liked recipes ")
          (ResponseUnparsable (lit "<html>")))
     = filteredItems [reel "1" "Bitcoin basics" "Crypto Trading" [] 100 1 0;
                      reel "2" "Most liked recipes" "Recipes" [] 200 2 500]
         (lit " most liked recipes ") (lit "all") None.
Proof.
  split; [exact lower_trim|].
  destruct (intent_after_extraction (lit " most liked recipes "))
    as [_ [_ [Hu [_ Hf]]]].
  split.
  - apply (Hu (lit "<html>")). vm_compute. lia.
  - apply (Hf lower_trim).
Defined.

Lemma engagement_tie_break_witness :
  Item.engagementScore (reel "2" "Two" "Food" [] 500 2 10)
  = Item.engagementScore (reel "1" "One" "Food" [] 400 1 10)
  /\ Item.dateAdded (reel "2" "Two" "Food" [] 500 2 10)
     > Item.dateAdded (reel "1" "One" "Food" [] 400 1 10)
  /\ precedes (reel "2" "Two" "Food" [] 500 2 10)
       (reel "1" "One" "Food" [] 400 1 10)
       (rankStage EngagementDesc
          [reel "1" "One" "Food" [] 400 1 10;
           reel "2" "Two" "Food" [] 500 2 10]).
Proof.
  split; [reflexivity | split; [reflexivity|]].
  destruct (engagement_tie_break
              [reel "1" "One" "Food" [] 400 1 10;
               reel "2" "Two" "Food" [] 500 2 10]) as [_ [_ [H _]]].
  destruct (H (reel "2" "Two" "Food" [] 500 2 10)
              (reel "1" "One" "Food" [] 400 1 10) eq_refl) as [_ [Hgt _]].
  apply Hgt.
  - left. reflexivity.
  - right. left. reflexivity.
  - reflexivity.
Defined.

(** ** The end-to-end scenarios of the specification *)

Example scenario_category :
  filteredItems [reel "1" "Bitcoin basics" "Crypto Trading" [] 100 1 0;
                 reel "2" "Pasta night" "Recipes" [] 200 2 500]
    [] (lit "finance") None
  = [reel "1" "Bitcoin basics" "Crypto Trading" [] 100 1 0].
Proof. vm_compute. reflexivity. Qed.

Example scenario_most_liked :
  filteredItems [reel "1" "Bitcoin basics" "Crypto Trading" [] 100 1 0;
                 reel "2" "Pasta night" "Recipes" [] 200 2 500]
    (lit "most liked recipes") (lit "all")
    (Some (Intent.mk [] [lit "Food"] (lit "most liked recipes")
             (Some EngagementDesc) None))
  = [reel "2" "Pasta night" "Recipes" [] 200 2 500].
Proof. vm_compute. reflexivity. Qed.

Example scenario_last_saved :
  filteredItems [reel "1" "Bitcoin basics" "Crypto Trading" [] 100 1 0;
                 reel "2" "Pasta night" "Recipes" [] 200 2 500]
    (lit "last finance reel") (lit "all")
    (Some (Intent.mk [] [lit "Finance"] (lit "last finance reel")
             (Some SequenceDesc) (Some 1)))
  = [reel "1" "Bitcoin basics" "Crypto Trading" [] 100 1 0].
Proof. vm_compute. reflexivity. Qed.

Example scenario_default_ranking :
  List.map Item.dateAdded
    (filteredItems [reel "1" "One" "Food" [] 100 1 0;
                    reel "2" "Two" "Food" [] 300 2 0;
                    reel "3" "Three" "Food" [] 200 3 0]
       [] (lit "all") None)
  = [300; 200; 100].
Proof. vm_compute. reflexivity. Qed.

Example scenario_engagement_tie :
  List.map Item.dateAdded
    (filteredItems [reel "1" "One" "Food" [] 400 1 10;
                    reel "2" "Two" "Food" [] 500 2 10]
       [] (lit "all")
       (Some (Intent.mk [] [] [] (Some EngagementDesc) None)))
  = [500; 400].
Proof. vm_compute. reflexivity. Qed.

End Concrete.

(* ===================================================================== *)
(** * More about the pipeline *)
(* ===================================================================== *)

Lemma List_filter_sublist {A} (f : A -> bool) (l : list A) :
  List.filter f l `sublist_of` l.
Proof.
  induction l as [|x l IH]; simpl; [constructor|].
  destruct (f x); now constructor.
Qed.

Lemma filter_all {A} (f : A -> bool) (l : list A) :
  (forall x, In x l -> f x = true) -> List.filter f l = l.
Proof. intros H. now apply forallb_filter_id, forallb_forall. Qed.

Lemma sort_sorted_id {A} (compareFn : A -> A -> Z) (l : list A) :
  StronglySorted (fun a b => compareFn a b <= 0) l -> sort compareFn l = l.
Proof.
  induction 1 as [|x l Hs IH Hx]; [reflexivity|].
  cbn [sort]. rewrite IH. destruct l as [|y l]; [reflexivity|].
  cbn [sort_insert]. apply List.Forall_inv in Hx. apply Z.leb_le in Hx.
  now rewrite Hx.
Qed.

Lemma sorted_take {A} (R : A -> A -> Prop) (l : list A) n :
  StronglySorted R l -> StronglySorted R (take n l).
Proof.
  intros Hs. revert n. induction Hs as [|x l Hs IH Hx]; intros [|n]; simpl;
    try constructor; [apply IH|].
  apply List.Forall_forall. intros y Hy.
  rewrite List.Forall_forall in Hx. apply Hx.
  apply list_elem_of_In. apply list_elem_of_In in Hy.
  eapply elem_of_sublist; [exact Hy | apply sublist_take].
Qed.

(** A sorted list is determined by the order of the elements within each
    class of elements that compare equal. *)
Lemma stable_sorted_unique {A} (compareFn : A -> A -> Z) :
  (forall a b, 0 < compareFn a b -> compareFn b a <= 0) ->
  forall l1 l2,
    StronglySorted (fun a b => compareFn a b <= 0) l1 ->
    StronglySorted (fun a b => compareFn a b <= 0) l2 ->
    (forall x,
       List.filter (fun z => (compareFn x z <=? 0) && (compareFn z x <=? 0)) l1
       = List.filter (fun z => (compareFn x z <=? 0) && (compareFn z x <=? 0))
                     l2) ->
    l1 = l2.
Proof.
  intros Htot.
  assert (Hrefl : forall a, (compareFn a a <=? 0) && (compareFn a a <=? 0)
                            = true).
  { intros a. apply andb_true_iff. split; apply Z.leb_le;
      destruct (Z.lt_ge_cases 0 (compareFn a a)) as [H | H];
      [now apply Htot | exact H | now apply Htot | exact H]. }
  induction l1 as [|a l1 IH]; intros l2 Hs1 Hs2 Hcls.
  - destruct l2 as [|b l2]; [reflexivity|].
    specialize (Hcls b). simpl in Hcls. now rewrite Hrefl in Hcls.
  - destruct l2 as [|b l2].
    { specialize (Hcls a). simpl in Hcls. now rewrite Hrefl in Hcls. }
    apply StronglySorted_inv in Hs1 as [Hs1 Ha].
    apply StronglySorted_inv in Hs2 as [Hs2 Hb].
    rewrite List.Forall_forall in Ha, Hb.
    assert (a = b) as <-.
    { pose proof (Hcls a) as Ca. pose proof (Hcls b) as Cb.
      cbn [List.filter] in Ca, Cb. rewrite Hrefl in Ca, Cb.
      destruct ((compareFn a b <=? 0) && (compareFn b a <=? 0)) eqn:Eab;
        [now injection Ca|].
      destruct ((compareFn b a <=? 0) && (compareFn a b <=? 0)) eqn:Eba;
        [now injection Cb|].
      exfalso.
      assert (In a l2) as Hin_a.
      { eapply (proj1 (filter_In _ a l2)). rewrite <- Ca. now left. }
      assert (In b l1) as Hin_b.
      { eapply (proj1 (filter_In _ b l1)). rewrite Cb. now left. }
      apply Hb in Hin_a. apply Ha in Hin_b.
      apply Z.leb_le in Hin_a, Hin_b. now rewrite Hin_a, Hin_b in Eba. }
    f_equal. apply IH; [exact Hs1 | exact Hs2|].
    intros x. specialize (Hcls x). cbn [List.filter] in Hcls.
    destruct ((compareFn x a <=? 0) && (compareFn a x <=? 0));
      [now injection Hcls | exact Hcls].
Qed.

Lemma limitStage_take searchIntent (result : list SavedItem) :
  exists k, limitStage searchIntent result = take k result
            /\ forall l, limitStage searchIntent (take k l) = take k l.
Proof.
  unfold limitStage.
  destruct searchIntent as [i|]; [destruct (Intent.limit i) as [n|]|].
  - destruct (negb (n =? 0) && (n >? 0)).
    + exists (Z.to_nat n). split; [reflexivity|]. intros l. apply take_idemp.
    + exists (length result). split; [now rewrite firstn_all | reflexivity].
  - exists (length result). split; [now rewrite firstn_all | reflexivity].
  - exists (length result). split; [now rewrite firstn_all | reflexivity].
Qed.

(** X1. The limit stage.  With a positive limit [n] the result is the first [n]
    ranked items, [min n (length result)] of them, and all of them when [n]
    is at least the length; a limit that is absent, zero or negative leaves
    the result as it is. *)
Theorem limitStage_bound (intent : SearchIntentResponse)
  (result : list SavedItem) :
  (forall n, Intent.limit intent = Some n -> 0 < n ->
     limitStage (Some intent) result = firstn (Z.to_nat n) result
     /\ length (limitStage (Some intent) result)
        = Nat.min (Z.to_nat n) (length result)
     /\ (Z.of_nat (length result) <= n ->
         limitStage (Some intent) result = result))
  /\ (Intent.limit intent = None
      \/ (exists n, Intent.limit intent = Some n /\ n <= 0) ->
      limitStage (Some intent) result = result)
  /\ limitStage None result = result.
Proof.
  split; [|split; [|reflexivity]].
  - intros n Hn Hpos. unfold limitStage. rewrite Hn.
    assert (E : negb (n =? 0) && (n >? 0) = true).
    { apply andb_true_iff. split.
      - apply negb_true_iff, Z.eqb_neq. lia.
      - apply Z.gtb_lt. lia. }
    rewrite E. split; [reflexivity | split].
    + apply length_firstn.
    + intros Hle. apply firstn_all2. lia.
  - unfold limitStage. intros [-> | [n [-> Hn]]]; [reflexivity|].
    destruct (n =? 0) eqn:E0; [reflexivity|]. simpl.
    destruct (n >? 0) eqn:E; [|reflexivity]. apply Z.gtb_lt in E. lia.
Qed.

Section WholePipeline.
Context {casing : Casing}.

Lemma categoryStage_sublist C (items : list SavedItem) :
  categoryStage C items `sublist_of` items.
Proof.
  unfold categoryStage. destruct (negb _); [apply List_filter_sublist|].
  reflexivity.
Qed.

Lemma textStage_sublist query searchIntent (result : list SavedItem) :
  textStage query searchIntent result `sublist_of` result.
Proof.
  unfold textStage. destruct (truthy _); [apply List_filter_sublist|].
  reflexivity.
Qed.

(** X2. The pipeline only selects and reorders: what it returns is the beginning
    of some arrangement of a sub-sequence of the collection.  So every
    returned item is an item of the collection, there are no more of them
    than in the collection, and no item is returned twice unless the
    collection holds it twice. *)
Theorem filteredItems_selects
  (items : list SavedItem) (searchQuery activeFilter : jsstring)
  (searchIntent : option SearchIntentResponse) :
  (exists kept ranked,
     kept `sublist_of` items
     /\ Permutation ranked kept
     /\ filteredItems items searchQuery activeFilter searchIntent
        `prefix_of` ranked)
  /\ (forall item,
        In item (filteredItems items searchQuery activeFilter searchIntent) ->
        In item items)
  /\ (length (filteredItems items searchQuery activeFilter searchIntent)
      <= length items)%nat
  /\ (List.NoDup items ->
      List.NoDup (filteredItems items searchQuery activeFilter searchIntent)).
Proof.
  set (kept := textStage (trim (toLowerCase searchQuery)) searchIntent
                 (categoryStage activeFilter items)).
  set (ranked := rankStage (resolveSortMode searchIntent) kept).
  assert (Hk : kept `sublist_of` items).
  { etransitivity; [apply textStage_sublist | apply categoryStage_sublist]. }
  assert (Hr : Permutation ranked kept) by apply rankStage_Permutation.
  assert (Ht : exists k, filteredItems items searchQuery activeFilter
                           searchIntent = take k ranked).
  { unfold filteredItems. fold kept. fold ranked.
    destruct (limitStage_take searchIntent ranked) as [k [-> _]].
    now exists k. }
  destruct Ht as [k Ht].
  assert (Hp : filteredItems items searchQuery activeFilter searchIntent
               `prefix_of` ranked) by (rewrite Ht; apply prefix_take).
  assert (Hs : filteredItems items searchQuery activeFilter searchIntent
               `sublist_of` ranked) by (rewrite Ht; apply sublist_take).
  split; [now exists kept, ranked | split; [|split]].
  - intros item Hi. apply list_elem_of_In.
    eapply elem_of_sublist; [|exact Hk].
    apply list_elem_of_In. eapply Permutation_in; [exact Hr|].
    apply list_elem_of_In. eapply elem_of_sublist; [|exact Hs].
    now apply list_elem_of_In.
  - apply sublist_length in Hs, Hk. apply Permutation_length in Hr. lia.
  - intros Hnd. apply NoDup_ListNoDup. apply NoDup_ListNoDup in Hnd.
    eapply sublist_NoDup; [|exact Hs].
    apply NoDup_ListNoDup. eapply Permutation_NoDup; [symmetry; exact Hr|].
    apply NoDup_ListNoDup. eapply sublist_NoDup; [exact Hnd | exact Hk].
Qed.

(** X3. An intent only adds to what the text filter keeps: the result without
    an intent is the result with one, restricted to the items on which the
    all-words match succeeds. *)
Theorem intent_only_adds
  (query : jsstring) (intent : SearchIntentResponse)
  (result : list SavedItem) :
  textStage query None result
  = List.filter (matchesAllWords (queryWords query))
      (textStage query (Some intent) result)
  /\ textStage query None result
     `sublist_of` textStage query (Some intent) result.
Proof.
  assert (E : textStage query None result
              = List.filter (matchesAllWords (queryWords query))
                  (textStage query (Some intent) result)).
  { unfold textStage. destruct query as [|c query]; cbn [truthy].
    - rewrite queryWords_empty. symmetry. now apply filter_all.
    - rewrite filter_twice. apply filter_ext. intros item.
      unfold matchesText.
      destruct (matchesAllWords _ item); [reflexivity|].
      now rewrite andb_false_r. }
  split; [exact E | rewrite E; apply List_filter_sublist].
Qed.

End WholePipeline.

(* ===================================================================== *)
(** * More about ranking *)
(* ===================================================================== *)

Lemma compareStable_refines_rank m a b :
  isChronological m = false ->
  compareStable m a b <= 0 -> compareRank m a b <= 0.
Proof.
  unfold compareStable, compareRank. rewrite !orZero_id.
  destruct m; try discriminate; intros _; case_zero_tests; lia.
Qed.

Lemma stable_class_in_rank_class m x z :
  isChronological m = false ->
  (compareStable m x z <=? 0) && (compareStable m z x <=? 0)
  = ((compareRank m x z <=? 0) && (compareRank m z x <=? 0))
    && ((compareStable m x z <=? 0) && (compareStable m z x <=? 0)).
Proof.
  intros Hm. apply bool_eq_iff.
  rewrite !andb_true_iff, !Z.leb_le.
  pose proof (compareStable_refines_rank m x z Hm).
  pose proof (compareStable_refines_rank m z x Hm). tauto.
Qed.

Lemma rankStage_sorted_rank m items :
  StronglySorted (fun a b => compareRank m a b <= 0) (rankStage m items).
Proof.
  unfold rankStage. destruct (isChronological m) eqn:Hm; cbn [negb].
  - apply sort_sorted; [apply compareRank_total | apply compareRank_trans].
  - eapply sorted_weaken; [|apply sort_sorted].
    + intros a b. now apply compareStable_refines_rank.
    + apply compareStable_total.
    + apply compareStable_trans.
Qed.

Lemma rankStage_sorted_stable m items :
  isChronological m = false ->
  StronglySorted (fun a b => compareStable m a b <= 0) (rankStage m items).
Proof.
  intros Hm. unfold rankStage. rewrite Hm. cbn [negb].
  apply sort_sorted; [apply compareStable_total | apply compareStable_trans].
Qed.

Lemma rankStage_fixed m (l : list SavedItem) :
  StronglySorted (fun a b => compareRank m a b <= 0) l ->
  (isChronological m = false ->
   StronglySorted (fun a b => compareStable m a b <= 0) l) ->
  rankStage m l = l.
Proof.
  intros H1 H2. unfold rankStage. rewrite (sort_sorted_id _ _ H1).
  destruct (isChronological m); cbn [negb]; [reflexivity|].
  now apply sort_sorted_id, H2.
Qed.

Lemma rankStage_stable_class m x items :
  isChronological m = false ->
  List.filter (fun z => (compareStable m x z <=? 0)
                        && (compareStable m z x <=? 0))
              (rankStage m items)
  = List.filter (fun z => (compareStable m x z <=? 0)
                          && (compareStable m z x <=? 0))
                items.
Proof.
  intros Hm. unfold rankStage. rewrite Hm. cbn [negb].
  rewrite sort_stable by apply compareStable_trans.
  rewrite (filter_ext _ _ (fun z => stable_class_in_rank_class m x z Hm)).
  rewrite <- filter_twice.
  rewrite sort_stable by apply compareRank_trans.
  rewrite filter_twice. symmetry. apply filter_ext.
  intros z. now apply stable_class_in_rank_class.
Qed.

(** X4. The orders of the other three sort modes.  Ranking rearranges the items
    and returns them by dateAdded descending (date-desc), by dateAdded
    ascending (date-asc), and by sequenceNumber descending with equal
    sequence numbers by dateAdded descending (sequence-desc). *)
Theorem rankStage_orders (items : list SavedItem) :
  (forall m, Permutation (rankStage m items) items)
  /\ StronglySorted (fun a b => Item.dateAdded a >= Item.dateAdded b)
       (rankStage DateDesc items)
  /\ StronglySorted (fun a b => Item.dateAdded a <= Item.dateAdded b)
       (rankStage DateAsc items)
  /\ StronglySorted
       (fun a b => Item.sequenceNumber a > Item.sequenceNumber b
                   \/ (Item.sequenceNumber a = Item.sequenceNumber b
                       /\ Item.dateAdded a >= Item.dateAdded b))
       (rankStage SequenceDesc items).
Proof.
  split; [intros m; apply rankStage_Permutation | split; [|split]].
  - eapply sorted_weaken; [|apply (rankStage_sorted_rank DateDesc)].
    intros a b. unfold compareRank. lia.
  - eapply sorted_weaken; [|apply (rankStage_sorted_rank DateAsc)].
    intros a b. unfold compareRank. lia.
  - eapply sorted_weaken;
      [|apply (rankStage_sorted_stable SequenceDesc); reflexivity].
    intros a b. unfold compareStable. case_zero_tests; lia.
Qed.

(** X5. Ties keep the order of the input.  Under the chronological modes the
    items of one dateAdded, and under sequence-desc the items of one
    sequenceNumber and dateAdded, come out in the order they went in. *)
Theorem rankStage_ties_keep_order (items : list SavedItem) (x : SavedItem) :
  List.filter (sameDate x) (rankStage DateDesc items)
  = List.filter (sameDate x) items
  /\ List.filter (sameDate x) (rankStage DateAsc items)
     = List.filter (sameDate x) items
  /\ List.filter (sameSequenceAndDate x) (rankStage SequenceDesc items)
     = List.filter (sameSequenceAndDate x) items.
Proof.
  assert (Hd : forall z, sameDate x z
                 = (compareRank DateDesc x z <=? 0)
                   && (compareRank DateDesc z x <=? 0)).
  { intros z. apply bool_eq_iff. unfold sameDate, compareRank.
    rewrite andb_true_iff, !Z.leb_le, Z.eqb_eq. lia. }
  assert (Ha : forall z, sameDate x z
                 = (compareRank DateAsc x z <=? 0)
                   && (compareRank DateAsc z x <=? 0)).
  { intros z. apply bool_eq_iff. unfold sameDate, compareRank.
    rewrite andb_true_iff, !Z.leb_le, Z.eqb_eq. lia. }
  assert (Hq : forall z, sameSequenceAndDate x z
                 = (compareStable SequenceDesc x z <=? 0)
                   && (compareStable SequenceDesc z x <=? 0)).
  { intros z. apply bool_eq_iff. unfold sameSequenceAndDate, compareStable.
    rewrite !andb_true_iff, !Z.leb_le, !Z.eqb_eq. case_zero_tests; lia. }
  split; [|split].
  - rewrite !(filter_ext _ _ Hd). unfold rankStage. cbn [isChronological negb].
    apply sort_stable, compareRank_trans.
  - rewrite !(filter_ext _ _ Ha). unfold rankStage. cbn [isChronological negb].
    apply sort_stable, compareRank_trans.
  - rewrite !(filter_ext _ _ Hq). now apply rankStage_stable_class.
Qed.

(** X6. The first sort pass does not show in the result of the two
    non-chronological modes: the stabilization sort alone returns the same
    list. *)
Theorem rankStage_second_pass_decides (m : SortBy) (items : list SavedItem) :
  isChronological m = false ->
  rankStage m items = sort (compareStable m) items.
Proof.
  intros Hm. apply (stable_sorted_unique (compareStable m)).
  - apply compareStable_total.
  - now apply rankStage_sorted_stable.
  - apply sort_sorted; [apply compareStable_total | apply compareStable_trans].
  - intros x. rewrite (rankStage_stable_class m x items Hm).
    symmetry. apply sort_stable, compareStable_trans.
Qed.

(** X7. Ranking a ranked list changes nothing, in every mode. *)
Theorem rankStage_idempotent (m : SortBy) (items : list SavedItem) :
  rankStage m (rankStage m items) = rankStage m items.
Proof.
  apply rankStage_fixed; [apply rankStage_sorted_rank|].
  intros Hm. now apply rankStage_sorted_stable.
Qed.

Section PipelineFixedPoint.
Context {casing : Casing}.

(** X8. The pipeline is idempotent: run on its own result, with the same query,
    category and intent, it returns that result. *)
Theorem filteredItems_idempotent
  (items : list SavedItem) (searchQuery activeFilter : jsstring)
  (searchIntent : option SearchIntentResponse) :
  filteredItems (filteredItems items searchQuery activeFilter searchIntent)
    searchQuery activeFilter searchIntent
  = filteredItems items searchQuery activeFilter searchIntent.
Proof.
  set (query := trim (toLowerCase searchQuery)).
  set (cat := categoryStage activeFilter items).
  set (kept := textStage query searchIntent cat).
  set (m := resolveSortMode searchIntent).
  set (ranked := rankStage m kept).
  assert (E : filteredItems items searchQuery activeFilter searchIntent
              = limitStage searchIntent ranked) by reflexivity.
  destruct (limitStage_take searchIntent ranked) as [k [Ek Hk]].
  rewrite E, Ek.
  assert (Hin : forall item, In item (take k ranked) -> In item kept).
  { intros item Hi. eapply Permutation_in; [apply rankStage_Permutation|].
    apply list_elem_of_In. eapply elem_of_sublist; [|apply sublist_take].
    apply list_elem_of_In, Hi. }
  assert (Hcat : categoryStage activeFilter (take k ranked) = take k ranked).
  { unfold categoryStage. destruct (negb _) eqn:Hall; [|reflexivity].
    apply filter_all. intros item Hi. apply Hin in Hi.
    assert (Hc : In item cat).
    { apply list_elem_of_In. eapply elem_of_sublist;
        [apply list_elem_of_In, Hi | apply textStage_sublist]. }
    unfold cat, categoryStage in Hc. rewrite Hall in Hc.
    now apply filter_In in Hc. }
  assert (Htext : textStage query searchIntent (take k ranked) = take k ranked).
  { unfold textStage. destruct (truthy query) eqn:Hq; [|reflexivity].
    apply filter_all. intros item Hi. apply Hin in Hi.
    unfold kept, textStage in Hi. rewrite Hq in Hi.
    now apply filter_In in Hi. }
  assert (Hrank : rankStage m (take k ranked) = take k ranked).
  { apply rankStage_fixed.
    - apply sorted_take, rankStage_sorted_rank.
    - intros Hm. now apply sorted_take, rankStage_sorted_stable. }
  unfold filteredItems. fold query. rewrite Hcat, Htext. fold m.
  rewrite Hrank. apply Hk.
Qed.

End PipelineFixedPoint.

(* ===================================================================== *)
(** * Trimming and tokenizing *)
(* ===================================================================== *)

Lemma trimStart_split s :
  exists ws, s = ws ++ trimStart s /\ Forall (fun c => isWhiteSpace c = true) ws.
Proof.
  induction s as [|c s [ws [E H]]]; simpl.
  - now exists [].
  - destruct (isWhiteSpace c) eqn:Hc.
    + exists (c :: ws). split; [simpl; now f_equal | now constructor].
    + now exists [].
Qed.

Lemma trimStart_head s c r : trimStart s = c :: r -> isWhiteSpace c = false.
Proof.
  induction s as [|d s IH]; simpl; [discriminate|].
  destruct (isWhiteSpace d) eqn:Hd; [exact IH|]. now intros [= <- _].
Qed.

Lemma trimStart_nil_iff s :
  trimStart s = [] <-> Forall (fun c => isWhiteSpace c = true) s.
Proof.
  induction s as [|c s IH]; simpl; [split; [constructor | reflexivity]|].
  destruct (isWhiteSpace c) eqn:Hc.
  - rewrite IH. split; [now constructor | now inversion 1].
  - split; [discriminate | inversion 1; congruence].
Qed.

Lemma trimStart_fixed c r : isWhiteSpace c = false -> trimStart (c :: r) = c :: r.
Proof. intros H. simpl. now rewrite H. Qed.

(** [trim] returns the empty string or a string with no white space at
    either end. *)
Lemma trim_solid s : trim s = [] \/ solid (trim s) = true.
Proof.
  unfold trim, trimEnd.
  destruct (trimStart (rev (trimStart s))) as [|b u] eqn:Eu; [now left|].
  right. pose proof (trimStart_head _ _ _ Eu) as Hb.
  destruct (trimStart_split (rev (trimStart s))) as [ws [E _]].
  rewrite Eu in E. apply (f_equal (@rev N)) in E.
  rewrite rev_involutive, rev_app_distr in E.
  assert (Hr : rev (rev (b :: u)) = b :: u) by apply rev_involutive.
  remember (rev (b :: u)) as x eqn:Ex.
  unfold solid. destruct x as [|a x].
  { apply (f_equal (@length N)) in Ex. rewrite length_rev in Ex. discriminate. }
  rewrite Hr. simpl in E. now rewrite (trimStart_head _ _ _ E), Hb.
Qed.

Lemma solid_trim x : solid x = true -> trim x = x.
Proof.
  unfold solid, trim, trimEnd. destruct x as [|a x]; [discriminate|].
  destruct (rev (a :: x)) as [|b y] eqn:Er; [discriminate|].
  rewrite andb_true_iff, !negb_true_iff. intros [Ha Hb].
  rewrite (trimStart_fixed a x Ha), Er, (trimStart_fixed b y Hb), <- Er.
  apply rev_involutive.
Qed.

Lemma trim_idempotent s : trim (trim s) = trim s.
Proof.
  destruct (trim_solid s) as [-> | H]; [reflexivity | now apply solid_trim].
Qed.

Lemma trim_nil_iff s :
  trim s = [] <-> Forall (fun c => isWhiteSpace c = true) s.
Proof.
  unfold trim, trimEnd. split.
  - intros H. apply (f_equal (@rev N)) in H. rewrite rev_involutive in H.
    simpl in H. apply trimStart_nil_iff in H.
    apply trimStart_nil_iff.
    destruct (trimStart s) as [|c r] eqn:E; [reflexivity|].
    apply trimStart_head in E. rewrite List.Forall_forall in H.
    rewrite H in E; [discriminate|]. apply in_rev. rewrite rev_involutive.
    now left.
  - intros H. apply trimStart_nil_iff in H. now rewrite H.
Qed.

Lemma split_runs_no_white s : forall inRun cur w,
  Forall (fun c => isWhiteSpace c = false) cur ->
  In w (split_runs inRun cur s) ->
  Forall (fun c => isWhiteSpace c = false) w.
Proof.
  induction s as [|c s IH]; intros inRun cur w Hcur; simpl.
  - intros [<- | []]. apply List.Forall_forall. intros x Hx.
    rewrite List.Forall_forall in Hcur. apply Hcur. now apply in_rev.
  - destruct (isWhiteSpace c) eqn:Hc.
    + destruct inRun; [now apply IH|].
      intros [<- | Hw]; [|now apply (IH true [])].
      apply List.Forall_forall. intros x Hx.
      rewrite List.Forall_forall in Hcur. apply Hcur. now apply in_rev.
    + apply IH. now constructor.
Qed.

Lemma split_runs_concat s : forall inRun cur,
  List.concat (split_runs inRun cur s) = rev cur ++ removeWhiteSpace s.
Proof.
  unfold removeWhiteSpace.
  induction s as [|c s IH]; intros inRun cur; simpl.
  - reflexivity.
  - destruct (isWhiteSpace c) eqn:Hc; simpl.
    + destruct inRun; [apply IH|]. simpl. now rewrite IH.
    + rewrite IH. simpl. now rewrite <- app_assoc.
Qed.

Lemma concat_nonempty (l : list jsstring) :
  List.concat (List.filter (fun w => (0 <? length w)%nat) l) = List.concat l.
Proof.
  induction l as [|w l IH]; simpl; [reflexivity|].
  destruct w; simpl; [exact IH | now rewrite IH].
Qed.

(** A string without white space at its ends splits into non-empty pieces. *)
Lemma split_runs_nonempty s : forall inRun cur w,
  (inRun = false -> cur = [] ->
   exists c r, s = c :: r /\ isWhiteSpace c = false) ->
  (inRun = true -> s <> []) ->
  match rev s with
  | [] => True
  | b :: _ => isWhiteSpace b = false
  end ->
  In w (split_runs inRun cur s) -> w <> [].
Proof.
  induction s as [|c s IH]; intros inRun cur w Hstart Hrun Hend; simpl.
  - intros [<- | []]. destruct inRun; [now destruct Hrun|].
    destruct cur as [|d cur].
    + destruct (Hstart eq_refl eq_refl) as [? [? [? _]]]. discriminate.
    + simpl. intros E. apply (f_equal (@length N)) in E.
      rewrite length_app in E. simpl in E. lia.
  - assert (Htail : isWhiteSpace c = true -> s <> []).
    { intros Hc ->. simpl in Hend. congruence. }
    assert (Hend' : match rev s with
                    | [] => True
                    | b :: _ => isWhiteSpace b = false
                    end).
    { simpl in Hend. destruct (rev s); [exact I | exact Hend]. }
    destruct (isWhiteSpace c) eqn:Hc.
    + destruct inRun.
      * apply IH; [discriminate | intros _; now apply Htail | exact Hend'].
      * intros [<- | Hw].
        -- destruct cur as [|d cur].
           ++ destruct (Hstart eq_refl eq_refl) as [? [? [[= <- _] Hx]]].
              congruence.
           ++ simpl. intros E. apply (f_equal (@length N)) in E.
              rewrite length_app in E. simpl in E. lia.
        -- revert Hw. apply IH;
             [discriminate | intros _; now apply Htail | exact Hend'].
    + apply IH; [intros _; discriminate | discriminate | exact Hend'].
Qed.

(** X11. The tokens of a query.  Every token is non-empty, free of white space
    and cut out of the query; put one after the other the tokens are the
    query without its white space, so no character of a word is lost; and
    there is no token exactly when the query is blank. *)
Theorem queryWords_tokens (query : jsstring) :
  (forall w, In w (queryWords query) ->
     w <> [] /\ Forall (fun c => isWhiteSpace c = false) w
     /\ isSubstring w query)
  /\ List.concat (queryWords query) = removeWhiteSpace query
  /\ (queryWords query = []
      <-> Forall (fun c => isWhiteSpace c = true) query).
Proof.
  assert (Hne : forall w, In w (queryWords query) -> w <> []).
  { intros w Hw. apply filter_In in Hw as [_ Hw]. apply Nat.ltb_lt in Hw.
    intros ->. simpl in Hw. lia. }
  assert (Hcat : List.concat (queryWords query) = removeWhiteSpace query).
  { unfold queryWords, split_ws. rewrite concat_nonempty.
    apply (split_runs_concat query false []). }
  split; [|split; [exact Hcat|]].
  - intros w Hw. split; [now apply Hne | split].
    + apply filter_In in Hw as [Hw _].
      now apply (split_runs_no_white query false []) in Hw.
    + now apply queryWords_substring.
  - split.
    + intros E. rewrite E in Hcat. simpl in Hcat. symmetry in Hcat.
      unfold removeWhiteSpace in Hcat. apply List.Forall_forall. intros c Hc.
      destruct (isWhiteSpace c) eqn:Hw; [reflexivity|].
      assert (In c (List.filter (fun c => negb (isWhiteSpace c)) query)).
      { apply filter_In. now rewrite Hw. }
      rewrite Hcat in H. destruct H.
    + intros Hall. destruct (queryWords query) as [|w ws] eqn:E; [reflexivity|].
      exfalso. apply (Hne w); [now left|].
      assert (Hnil : removeWhiteSpace query = []).
      { unfold removeWhiteSpace. rewrite List.Forall_forall in Hall.
        destruct (List.filter _ query) as [|c r] eqn:Ef; [reflexivity|].
        assert (In c (c :: r)) as Hc by now left.
        rewrite <- Ef in Hc. apply filter_In in Hc as [Hc Hn].
        rewrite (Hall _ Hc) in Hn. discriminate. }
      rewrite Hnil in Hcat. simpl in Hcat.
      now apply app_eq_nil in Hcat.
Qed.

(** X12. On the query the pipeline tokenizes, which is trimmed, [split] returns
    no empty piece: dropping the empty pieces drops nothing. *)
Theorem trimmed_query_splits_clean (s : jsstring) :
  trim s <> [] -> queryWords (trim s) = split_ws (trim s).
Proof.
  intros Hne. destruct (trim_solid s) as [E | Hsolid]; [contradiction|].
  unfold queryWords. apply filter_all. intros w Hw.
  apply Nat.ltb_lt. enough (w <> []) by (destruct w; simpl; [congruence | lia]).
  revert Hw. unfold split_ws, solid in *.
  destruct (trim s) as [|a x] eqn:Et; [contradiction|].
  destruct (rev (a :: x)) as [|b y] eqn:Er; [discriminate|].
  apply andb_true_iff in Hsolid as [Ha Hb]. apply negb_true_iff in Ha, Hb.
  apply split_runs_nonempty.
  - intros _ _. now exists a, x.
  - discriminate.
  - now rewrite Er.
Qed.

(** X13. [handleAddSubmit] acts on the trimmed input only: blank input is
    ignored, input that starts with "http" once trimmed is captured and
    never searched, any other input becomes the search query, which is
    non-empty and has no white space at its ends. *)
Theorem handleAddSubmit_cases (inputValue : jsstring) :
  (handleAddSubmit inputValue = Ignored
   <-> Forall (fun c => isWhiteSpace c = true) inputValue)
  /\ (forall url, handleAddSubmit inputValue = Capture url ->
        url = trim inputValue /\ exists rest, url = lit "http" ++ rest)
  /\ (forall query, handleAddSubmit inputValue = SearchFor query ->
        query = trim inputValue /\ query <> [] /\ trim query = query
        /\ ~ exists rest, query = lit "http" ++ rest).
Proof.
  unfold handleAddSubmit.
  destruct (trim inputValue) as [|c r] eqn:Et; cbn [truthy negb].
  - split; [|split; discriminate].
    split; [intros _; now apply trim_nil_iff | reflexivity].
  - assert (Hnb : ~ Forall (fun c => isWhiteSpace c = true) inputValue).
    { intros H. apply trim_nil_iff in H. congruence. }
    destruct (startsWith (c :: r) (lit "http")) eqn:Eh.
    + split; [split; [discriminate | contradiction] | split; [|discriminate]].
      intros url [= <-]. split; [reflexivity|].
      now apply startsWith_spec.
    + split; [split; [discriminate | contradiction] | split; [discriminate|]].
      intros query [= <-]. split; [reflexivity | split; [discriminate|split]].
      * rewrite <- Et. apply trim_idempotent.
      * intros H. apply startsWith_spec in H. congruence.
Qed.

(* ===================================================================== *)
(** * More about the store *)
(* ===================================================================== *)

Lemma updateEnrichment_found (db : Store) (id : jsstring) (item : SavedItem)
  (aiData : AIEnrichmentResponse) :
  keyed db -> db !! id = Some item ->
  updateEnrichment id aiData db = <[id := updatedItem item aiData]> db.
Proof.
  intros Hk Hi. unfold updateEnrichment. rewrite (find_by_id _ _ _ Hk Hi).
  unfold saveItem. simpl. now rewrite (Hk _ _ Hi).
Qed.

Lemma updateEnrichment_missing (db : Store) (id : jsstring)
  (aiData : AIEnrichmentResponse) :
  keyed db -> db !! id = None -> updateEnrichment id aiData db = db.
Proof.
  intros Hk Hi. unfold updateEnrichment. rewrite find_by_id_none; [reflexivity|].
  intros item Hin Hid. apply getAllItems_In in Hin as [k Hk'].
  rewrite <- Hid, (Hk _ _ Hk') in Hi. congruence.
Qed.

Lemma maxSeq_bounds (db : Store) :
  0 <= maxSeq (getAllItems db)
  /\ forall k i, db !! k = Some i ->
       Item.sequenceNumber i <= maxSeq (getAllItems db).
Proof.
  destruct (maxSeq_greatest db) as [H0 [Hub _]]. split; [exact H0|].
  intros k i Hi. apply Hub, getAllItems_In. now exists k.
Qed.

(** X17. The number given to a sentinel item is at least 1 and greater than
    every stored sequence number; so if no two stored items share a sequence
    number before the save, none do after it. *)
Theorem save_sentinel_fresh_number (db : Store) (item : SavedItem) :
  Item.sequenceNumber item = -1 ->
  1 <= Item.sequenceNumber (fst (save item db))
  /\ (forall k i, db !! k = Some i ->
        Item.sequenceNumber i < Item.sequenceNumber (fst (save item db)))
  /\ (distinctSequence db -> distinctSequence (snd (save item db))).
Proof.
  intros Hs. destruct (maxSeq_bounds db) as [H0 Hub].
  unfold save. rewrite Hs. cbn [Z.eqb fst snd Pos.eqb].
  change (-1 =? -1) with true. cbv iota. cbn [fst snd].
  cbn [Item.sequenceNumber Item.with_sequenceNumber].
  split; [lia | split].
  - intros k i Hi. apply Hub in Hi. lia.
  - intros Hd k1 k2 i1 i2 H1 H2 Heq. unfold saveItem in H1, H2.
    cbn [Item.id Item.with_sequenceNumber] in H1, H2.
    apply lookup_insert_Some in H1 as [[<- <-] | [Hn1 H1]];
      apply lookup_insert_Some in H2 as [[<- <-] | [Hn2 H2]].
    + reflexivity.
    + apply Hub in H2. simpl in Heq. lia.
    + apply Hub in H1. simpl in Heq. lia.
    + now apply (Hd k1 k2 i1 i2).
Qed.

(** X18. Sequence numbers are not unique over time: after the item saved last is
    deleted, the next sentinel item is given its number again. *)
Theorem sequence_reused_after_delete (db : Store) (a b : SavedItem) :
  Item.sequenceNumber a = -1 ->
  Item.sequenceNumber b = -1 ->
  db !! Item.id a = None ->
  deleteItem (Item.id a) (snd (save a db)) = db
  /\ Item.sequenceNumber
       (fst (save b (deleteItem (Item.id a) (snd (save a db)))))
     = Item.sequenceNumber (fst (save a db)).
Proof.
  intros Ha Hb Hfresh.
  assert (E : deleteItem (Item.id a) (snd (save a db)) = db).
  { unfold save, deleteItem, saveItem. rewrite Ha. simpl.
    now rewrite delete_insert_eq, delete_id. }
  split; [exact E|]. rewrite E. unfold save. now rewrite Ha, Hb.
Qed.

(** X19. [updateEnrichment] touches one item only: the stored ids are the same
    after it, every other item is as it was, the store still holds every item
    under its own id, and sequence numbers that were distinct remain so. *)
Theorem updateEnrichment_frame (db : Store) (id : jsstring)
  (aiData : AIEnrichmentResponse) :
  keyed db ->
  dom (updateEnrichment id aiData db) = dom db
  /\ (forall k, k <> id -> updateEnrichment id aiData db !! k = db !! k)
  /\ keyed (updateEnrichment id aiData db)
  /\ (distinctSequence db -> distinctSequence (updateEnrichment id aiData db)).
Proof.
  intros Hk. destruct (db !! id) as [item|] eqn:Hi.
  - rewrite (updateEnrichment_found _ _ _ aiData Hk Hi).
    split; [|split; [|split]].
    + apply dom_insert_lookup_L. now rewrite Hi.
    + intros k Hne. now apply lookup_insert_ne.
    + intros k i Hl. apply lookup_insert_Some in Hl as [[<- <-] | [_ Hl]].
      * simpl. now apply Hk.
      * now apply Hk.
    + intros Hd k1 k2 i1 i2 H1 H2 Heq.
      apply lookup_insert_Some in H1 as [[<- <-] | [Hn1 H1]];
        apply lookup_insert_Some in H2 as [[<- <-] | [Hn2 H2]].
      * reflexivity.
      * simpl in Heq. now apply (Hd id k2 item i2).
      * simpl in Heq. now apply (Hd k1 id i1 item).
      * now apply (Hd k1 k2 i1 i2).
  - rewrite (updateEnrichment_missing _ _ aiData Hk Hi). tauto.
Qed.

Lemma firstOccurrences_fixed a :
  List.NoDup a -> firstOccurrences a = a.
Proof.
  induction 1 as [|x a Hx Hnd IH]; simpl; [reflexivity|].
  rewrite IH. f_equal. apply filter_all. intros y Hy.
  apply negb_true_iff, strictEq_false. congruence.
Qed.

Lemma setFrom_absorbs a b :
  setFrom [] (setFrom [] (a ++ b) ++ b) = setFrom [] (a ++ b).
Proof.
  rewrite !setFrom_firstOccurrences.
  rewrite (firstOccurrences_app (firstOccurrences (a ++ b)) b).
  rewrite (firstOccurrences_fixed _ (firstOccurrences_NoDup (a ++ b))).
  assert (E : List.filter
                (fun y => negb (existsb (strictEq y)
                                  (firstOccurrences (a ++ b))))
                (firstOccurrences b) = []).
  { destruct (List.filter _ _) as [|y r] eqn:E; [reflexivity|].
    assert (Hy : In y (y :: r)) by now left.
    rewrite <- E in Hy. apply filter_In in Hy as [Hy Hn].
    apply (proj1 (firstOccurrences_In _ _)) in Hy. apply negb_true_iff in Hn.
    assert (Hx : existsb (strictEq y) (firstOccurrences (a ++ b)) = true).
    { apply existsb_exists. exists y. split.
      - apply firstOccurrences_In, in_app_iff. now right.
      - now apply strictEq_true. }
    congruence. }
  rewrite E. apply app_nil_r.
Qed.

Lemma updatedItem_twice item aiData :
  updatedItem (updatedItem item aiData) aiData = updatedItem item aiData.
Proof.
  unfold updatedItem. cbn [Item.id Item.url Item.title Item.description
    Item.thumbnail Item.creator Item.platform Item.tags Item.topic
    Item.summary Item.dateAdded Item.sequenceNumber Item.engagementScore
    Item.debugInfo Item.isEnriching].
  rewrite setFrom_absorbs. f_equal.
  - destruct (Enrichment.suggestedTitle aiData) as [s|]; [|reflexivity].
    destruct (isPlaceholderTitle (Item.title item) && truthy s) eqn:E.
    + now destruct (isPlaceholderTitle s && truthy s).
    + now rewrite E.
  - destruct (Enrichment.engagementScore aiData) as [e|]; [|reflexivity].
    now destruct (e =? 0).
Qed.

(** X20. Applying an enrichment a second time changes nothing. *)
Theorem updateEnrichment_idempotent (db : Store) (id : jsstring)
  (aiData : AIEnrichmentResponse) :
  keyed db ->
  updateEnrichment id aiData (updateEnrichment id aiData db)
  = updateEnrichment id aiData db.
Proof.
  intros Hk. destruct (db !! id) as [item|] eqn:Hi.
  - rewrite (updateEnrichment_found _ _ _ aiData Hk Hi).
    assert (Hk' : keyed (<[id := updatedItem item aiData]> db)).
    { intros k i H. apply lookup_insert_Some in H as [[<- <-] | [_ H]].
      - simpl. now apply Hk.
      - now apply Hk. }
    rewrite (updateEnrichment_found _ _ _ aiData Hk' (lookup_insert_eq _ _ _)).
    now rewrite insert_insert_eq, updatedItem_twice.
  - now rewrite !(updateEnrichment_missing _ _ aiData Hk Hi).
Qed.

(* ===================================================================== *)
(** * Capturing a link *)
(* ===================================================================== *)

Lemma save_assigned (item : SavedItem) (db : Store) :
  Item.sequenceNumber item <> -1 ->
  save item db = (item, <[Item.id item := item]> db).
Proof. intros H. unfold save. apply Z.eqb_neq in H. now rewrite H. Qed.

Lemma keyed_insert (db : Store) (item : SavedItem) :
  keyed db -> keyed (<[Item.id item := item]> db).
Proof. apply keyed_saveItem. Qed.

Lemma recoverCapture_found (db : Store) tempId existing :
  keyed db -> db !! tempId = Some existing ->
  Item.sequenceNumber existing <> -1 ->
  recoverCapture tempId db = <[tempId := notEnriching existing]> db.
Proof.
  intros Hk Hi Hs. unfold recoverCapture.
  rewrite (find_by_id _ _ _ Hk Hi), save_assigned by exact Hs.
  simpl. now rewrite (Hk _ _ Hi).
Qed.

(** A capture amounts to one write: whatever [fetchMetadata] and
    [enrichContent] do, the four store operations leave the one item
    [capturedItem] under the new id. *)
Lemma handleAddContent_store (db : Store) tempId url now meta ai :
  keyed db ->
  handleAddContent tempId url now meta ai db
  = <[tempId := capturedItem tempId url now meta ai (maxSeq (getAllItems db))]>
      db.
Proof.
  intros Hk. destruct (maxSeq_bounds db) as [H0 _].
  set (M := maxSeq (getAllItems db)) in *.
  set (skeleton := Item.with_sequenceNumber (M + 1)
                     (skeletonItem tempId url now)).
  assert (Hsave : save (skeletonItem tempId url now) db
                  = (skeleton, <[tempId := skeleton]> db)) by reflexivity.
  assert (Hk1 : keyed (<[tempId := skeleton]> db)).
  { apply (keyed_insert db skeleton Hk). }
  unfold handleAddContent, capturedItem. rewrite Hsave. fold skeleton.
  destruct meta as [meta|].
  - rewrite save_assigned by (simpl; lia).
    cbn [metaItem Item.id]. change (Item.id skeleton) with tempId.
    rewrite insert_insert_eq.
    assert (Hk2 : keyed (<[tempId := metaItem skeleton meta]> db)).
    { apply (keyed_insert db (metaItem skeleton meta) Hk). }
    destruct ai as [aiData|].
    + rewrite (updateEnrichment_found _ _ _ aiData Hk2 (lookup_insert_eq _ _ _)).
      apply insert_insert_eq.
    + rewrite (recoverCapture_found _ _ _ Hk2 (lookup_insert_eq _ _ _))
        by (simpl; lia).
      apply insert_insert_eq.
  - rewrite (recoverCapture_found _ _ _ Hk1 (lookup_insert_eq _ _ _))
      by (simpl; lia).
    apply insert_insert_eq.
Qed.

(** X21. What a capture leaves behind, however metadata fetching and enrichment
    end: one item under the new id, with the url and the time of the capture,
    the next sequence number (assigned once, by the first save, and kept by
    the later ones), and no longer marked as enriching; every other stored
    item is as it was.  When enrichment fails after metadata was fetched, the
    item keeps the fetched title, topic and tags. *)
Theorem capture_outcome (db : Store) (tempId url : jsstring) (now : Z)
  (meta : Completion EnrichmentResult)
  (ai : Completion AIEnrichmentResponse) :
  keyed db ->
  exists item,
    handleAddContent tempId url now meta ai db = <[tempId := item]> db
    /\ Item.id item = tempId
    /\ Item.url item = url
    /\ Item.dateAdded item = now
    /\ Item.sequenceNumber item = maxSeq (getAllItems db) + 1
    /\ Item.isEnriching item = Some false
    /\ keyed (handleAddContent tempId url now meta ai db)
    /\ (forall k, k <> tempId ->
          handleAddContent tempId url now meta ai db !! k = db !! k)
    /\ (forall fetched, meta = Resolved fetched -> ai = Rejected ->
          Item.title item = Metadata.title fetched
          /\ Item.topic item = Metadata.topic fetched
          /\ Item.tags item = Metadata.tags fetched
          /\ Item.engagementScore item = 0).
Proof.
  intros Hk. rewrite (handleAddContent_store _ _ _ _ _ _ Hk).
  exists (capturedItem tempId url now meta ai (maxSeq (getAllItems db))).
  split; [reflexivity|].
  assert (Hid : Item.id (capturedItem tempId url now meta ai
                           (maxSeq (getAllItems db))) = tempId).
  { now destruct meta as [m|], ai as [p|]. }
  split; [exact Hid|].
  split; [now destruct meta as [m|], ai as [p|]|].
  split; [now destruct meta as [m|], ai as [p|]|].
  split; [now destruct meta as [m|], ai as [p|]|].
  split; [now destruct meta as [m|], ai as [p|]|].
  split; [|split].
  - rewrite <- Hid at 1. now apply keyed_insert.
  - intros k Hne. now apply lookup_insert_ne.
  - intros fetched -> ->. repeat split.
Qed.


(** The sequence numbers of the store are ones that [save] gave out: this
    holds of the object store as created and every operation keeps it. *)
Lemma numbered_empty : numbered ∅.
Proof.
  intros i Hi. apply getAllItems_In in Hi as [k Hk].
  now rewrite lookup_empty in Hk.
Qed.

Lemma numbered_put (db : Store) (k : jsstring) (item : SavedItem) :
  numbered db -> 1 <= Item.sequenceNumber item ->
  numbered (<[k := item]> db).
Proof.
  intros Hn Hs i Hi. apply getAllItems_In in Hi as [k' Hk].
  apply lookup_insert_Some in Hk as [[_ <-] | [_ Hk]]; [exact Hs|].
  apply Hn, getAllItems_In. now exists k'.
Qed.

Lemma numbered_save (item : SavedItem) (db : Store) :
  numbered db ->
  Item.sequenceNumber item = -1 \/ 1 <= Item.sequenceNumber item ->
  numbered (snd (save item db))
  /\ 1 <= Item.sequenceNumber (fst (save item db)).
Proof.
  intros Hn Hs. destruct (maxSeq_bounds db) as [H0 _]. unfold save.
  destruct (Item.sequenceNumber item =? -1) eqn:E; cbn [fst snd].
  - assert (H1 : 1 <= Item.sequenceNumber
                        (Item.with_sequenceNumber
                           (maxSeq (getAllItems db) + 1) item))
      by (simpl; lia).
    split; [now apply numbered_put | exact H1].
  - apply Z.eqb_neq in E.
    assert (H1 : 1 <= Item.sequenceNumber item) by (destruct Hs; [easy | lia]).
    split; [now apply numbered_put | exact H1].
Qed.

Lemma numbered_updateEnrichment (id : jsstring)
  (aiData : AIEnrichmentResponse) (db : Store) :
  numbered db -> numbered (updateEnrichment id aiData db).
Proof.
  intros Hn. unfold updateEnrichment.
  destruct (List.find _ _) as [item|] eqn:E; [|exact Hn].
  apply find_some in E as [Hin _]. apply numbered_put; [exact Hn|].
  simpl. now apply Hn.
Qed.

Lemma numbered_deleteItem (id : jsstring) (db : Store) :
  numbered db -> numbered (deleteItem id db).
Proof.
  intros Hn i Hi. apply getAllItems_In in Hi as [k Hk]. unfold deleteItem in Hk.
  apply lookup_delete_Some in Hk as [_ Hk].
  apply Hn, getAllItems_In. now exists k.
Qed.

Lemma capturedItem_id tempId url now meta ai M :
  Item.id (capturedItem tempId url now meta ai M) = tempId.
Proof. now destruct meta as [m|], ai as [p|]. Qed.

Lemma capturedItem_sequenceNumber tempId url now meta ai M :
  Item.sequenceNumber (capturedItem tempId url now meta ai M) = M + 1.
Proof. now destruct meta as [m|], ai as [p|]. Qed.

Lemma keyed_handleAddContent (db : Store) tempId url now meta ai :
  keyed db -> keyed (handleAddContent tempId url now meta ai db).
Proof.
  intros Hk. rewrite (handleAddContent_store _ _ _ _ _ _ Hk).
  rewrite <- (capturedItem_id tempId url now meta ai
                (maxSeq (getAllItems db))) at 1.
  now apply keyed_insert.
Qed.

Lemma numbered_handleAddContent (db : Store) tempId url now meta ai :
  keyed db -> numbered db ->
  numbered (handleAddContent tempId url now meta ai db).
Proof.
  intros Hk Hn. rewrite (handleAddContent_store _ _ _ _ _ _ Hk).
  apply numbered_put; [exact Hn|].
  rewrite capturedItem_sequenceNumber.
  destruct (maxSeq_bounds db) as [H0 _]. lia.
Qed.

(** Every store the App produces holds its items under their ids, with
    sequence numbers that [save] gave out. *)
Lemma produced_keyed (db : Store) : produced db -> keyed db.
Proof.
  induction 1 as [|tempId url now meta ai db _ IH|id db _ IH].
  - apply keyed_empty.
  - now apply keyed_handleAddContent.
  - now apply keyed_deleteItem.
Qed.

Lemma produced_numbered (db : Store) : produced db -> numbered db.
Proof.
  induction 1 as [|tempId url now meta ai db Hp IH|id db _ IH].
  - apply numbered_empty.
  - apply numbered_handleAddContent; [now apply produced_keyed | exact IH].
  - now apply numbered_deleteItem.
Qed.

(* ===================================================================== *)
(** * The category buttons *)
(* ===================================================================== *)

Section ButtonFacts.
Context {casing : Casing}.

Lemma setFrom_In a x : In x (setFrom [] a) <-> In x a.
Proof. rewrite setFrom_firstOccurrences. apply firstOccurrences_In. Qed.

Lemma normalizedTopics_In items label :
  In label (normalizedTopics items)
  <-> exists item, In item items /\ isCategoryTopic (Item.topic item) = true
                   /\ label = normalizeTopic (Item.topic item).
Proof.
  unfold normalizedTopics, rawTopics. rewrite setFrom_In, in_map_iff. split.
  - intros [topic [<- Ht]]. apply filter_In in Ht as [Ht Hc].
    apply in_map_iff in Ht as [item [<- Hi]]. now exists item.
  - intros [item [Hi [Hc ->]]]. exists (Item.topic item).
    split; [reflexivity|]. apply filter_In. split; [|exact Hc].
    apply in_map_iff. now exists item.
Qed.

Lemma normalizedTopics_NoDup items : List.NoDup (normalizedTopics items).
Proof.
  unfold normalizedTopics. rewrite setFrom_firstOccurrences.
  apply firstOccurrences_NoDup.
Qed.

(** X14. The buttons: "All" first, then one button per normalized topic of the
    items whose topic is set and is no placeholder, the id of a button being
    its label lower-cased.  No label is twice among the topic buttons; the
    bar as a whole has a label twice exactly when such a topic normalizes to
    "All", which then stands on two buttons. *)
Theorem dynamicFilters_buttons (items : list SavedItem) :
  exists dynamic,
    dynamicFilters items
    = {| buttonId := lit "all"; buttonLabel := lit "All" |} :: dynamic
    /\ List.NoDup (List.map buttonLabel dynamic)
    /\ (forall b,
          In b dynamic
          <-> exists item,
                In item items /\ isCategoryTopic (Item.topic item) = true
                /\ buttonLabel b = normalizeTopic (Item.topic item)
                /\ buttonId b = toLowerCase (buttonLabel b))
    /\ (List.NoDup (List.map buttonLabel (dynamicFilters items))
        <-> ~ exists item,
                In item items /\ isCategoryTopic (Item.topic item) = true
                /\ normalizeTopic (Item.topic item) = lit "All").
Proof.
  assert (Hmap : List.map buttonLabel
                   (List.map (fun topic => {| buttonId := toLowerCase topic;
                                              buttonLabel := topic |})
                      (normalizedTopics items))
                 = normalizedTopics items).
  { rewrite List.map_map. cbn [buttonLabel]. apply List.map_id. }
  eexists. split; [reflexivity | split; [|split]].
  - rewrite Hmap. apply normalizedTopics_NoDup.
  - intros b. rewrite in_map_iff. split.
    + intros [label [<- Hl]]. apply normalizedTopics_In in Hl
        as [item [Hi [Hc ->]]]. now exists item.
    + intros [item [Hi [Hc [Hl Hid]]]].
      exists (normalizeTopic (Item.topic item)). split.
      * destruct b as [bid blabel]. cbn [buttonLabel buttonId] in *.
        now subst.
      * apply normalizedTopics_In. now exists item.
  - unfold dynamicFilters, STATIC_FILTERS.
    cbn [app List.map buttonLabel]. rewrite Hmap. split.
    + intros Hnd [item [Hi [Hc Hall]]].
      apply List.NoDup_cons_iff in Hnd as [Hnot _]. apply Hnot.
      apply normalizedTopics_In. now exists item.
    + intros Hno. apply List.NoDup_cons; [|apply normalizedTopics_NoDup].
      intros Hin. apply Hno.
      apply normalizedTopics_In in Hin as [item [Hi [Hc Hall]]].
      now exists item.
Qed.

(** X15. No button is shown in vain: choosing a button other than "All" keeps at
    least the item its label comes from (lower-casing being idempotent). *)
Theorem every_button_selects (items : list SavedItem) (b : FilterButton) :
  (forall s, toLowerCase (toLowerCase s) = toLowerCase s) ->
  In b (dynamicFilters items) ->
  b = {| buttonId := lit "all"; buttonLabel := lit "All" |}
  \/ exists item,
       In item items
       /\ buttonLabel b = normalizeTopic (Item.topic item)
       /\ In item (categoryStage (buttonId b) items).
Proof.
  intros Hlow [<- | Hb]; [now left | right].
  apply in_map_iff in Hb as [label [<- Hl]].
  apply normalizedTopics_In in Hl as [item [Hi [_ ->]]].
  exists item. split; [exact Hi | split; [reflexivity|]].
  cbn [buttonId]. unfold categoryStage.
  destruct (negb _); [|exact Hi].
  apply filter_In. split; [exact Hi|]. unfold matchesCategory.
  apply orb_true_iff. left. apply strictEq_true. now rewrite Hlow.
Qed.

Lemma dynamicFilters_In items b :
  In b (dynamicFilters items)
  <-> b = {| buttonId := lit "all"; buttonLabel := lit "All" |}
      \/ exists item,
           In item items /\ isCategoryTopic (Item.topic item) = true
           /\ b = {| buttonId := toLowerCase (normalizeTopic (Item.topic item));
                     buttonLabel := normalizeTopic (Item.topic item) |}.
Proof.
  unfold dynamicFilters, STATIC_FILTERS. rewrite in_app_iff, in_map_iff.
  split.
  - intros [[<- | []] | [label [<- Hl]]]; [now left | right].
    apply normalizedTopics_In in Hl as [item [Hi [Hc ->]]]. now exists item.
  - intros [-> | [item [Hi [Hc ->]]]]; [left; now left | right].
    exists (normalizeTopic (Item.topic item)). split; [reflexivity|].
    apply normalizedTopics_In. now exists item.
Qed.

(** Putting an item whose topic is a placeholder under a new key changes no
    button. *)
Lemma sameButtons_insert (db : Store) (k : jsstring) (x : SavedItem) :
  db !! k = None -> isCategoryTopic (Item.topic x) = false ->
  sameButtons (<[k := x]> db) db.
Proof.
  intros Hfresh Hx b. rewrite !dynamicFilters_In. split.
  - intros [-> | [item [Hi [Hc ->]]]]; [now left | right].
    exists item. split; [|now split].
    apply getAllItems_In in Hi as [k' Hk].
    apply lookup_insert_Some in Hk as [[_ <-] | [_ Hk]]; [congruence|].
    apply getAllItems_In. now exists k'.
  - intros [-> | [item [Hi [Hc ->]]]]; [now left | right].
    exists item. split; [|now split].
    apply getAllItems_In in Hi as [k' Hk]. apply getAllItems_In. exists k'.
    rewrite lookup_insert_ne; [exact Hk | congruence].
Qed.

(** X16. A capture adds no button before it is enriched.  For a link captured
    under a new id, the store after the skeleton is saved (with the sequence
    number [save] gives it), the store after the fetched metadata is saved,
    and the store a capture leaves when fetching or enrichment fails, all
    give the buttons of the store before the capture. *)
Theorem unenriched_capture_adds_no_button
  (db : Store) (tempId url : jsstring) (now : Z) (random : jsstring)
  (youtube : YouTubeFetch) (instagram : InstagramFetch)
  (ai : Completion AIEnrichmentResponse) :
  keyed db -> db !! tempId = None ->
  sameButtons (snd (save (skeletonItem tempId url now) db)) db
  /\ sameButtons
       (snd (save
               (metaItem (fst (save (skeletonItem tempId url now) db))
                  (fetchMetadata url random youtube instagram))
               (snd (save (skeletonItem tempId url now) db))))
       db
  /\ sameButtons (handleAddContent tempId url now Rejected ai db) db
  /\ sameButtons
       (handleAddContent tempId url now
          (Resolved (fetchMetadata url random youtube instagram)) Rejected db)
       db.
Proof.
  intros Hk Hfresh. destruct (maxSeq_bounds db) as [H0 _].
  assert (Hsave : save (skeletonItem tempId url now) db
                  = (Item.with_sequenceNumber (maxSeq (getAllItems db) + 1)
                       (skeletonItem tempId url now),
                     <[tempId := Item.with_sequenceNumber
                                   (maxSeq (getAllItems db) + 1)
                                   (skeletonItem tempId url now)]> db))
    by reflexivity.
  rewrite Hsave. cbn [fst snd].
  split; [|split; [|split]].
  - now apply sameButtons_insert.
  - rewrite save_assigned by (simpl; lia). cbn [snd metaItem Item.id].
    rewrite insert_insert_eq. now apply sameButtons_insert.
  - rewrite (handleAddContent_store _ _ _ _ _ _ Hk).
    now apply sameButtons_insert.
  - rewrite (handleAddContent_store _ _ _ _ _ _ Hk).
    now apply sameButtons_insert.
Qed.

End ButtonFacts.

(* ===================================================================== *)
(** * Fetched metadata *)
(* ===================================================================== *)

Lemma takeWhile_Forall p s : Forall (fun c => p c = true) (takeWhile p s).
Proof.
  induction s as [|c s IH]; simpl; [constructor|].
  destruct (p c) eqn:E; now constructor.
Qed.

Lemma takeWhile_prefix p s : exists post, s = takeWhile p s ++ post.
Proof.
  induction s as [|c s [post IH]]; simpl; [now exists []|].
  destruct (p c); [|now exists (c :: s)].
  exists post. simpl. now f_equal.
Qed.

Lemma handleAt_sound s h :
  handleAt s = Some h -> h <> [] /\ Forall (fun c => isHandleChar c = true) h.
Proof.
  unfold handleAt. destruct s as [|c r]; [discriminate|].
  destruct (c =? 45)%N; [|discriminate].
  destruct (truthy (takeWhile isWhiteSpace r)); [|discriminate].
  destruct (truthy (takeWhile isHandleChar _)) eqn:Eh; [|discriminate].
  destruct (truthy (takeWhile isWhiteSpace _)); [|discriminate].
  destruct (startsWith _ _); [|discriminate].
  intros [= <-]. split; [now apply truthy_spec | apply takeWhile_Forall].
Qed.

Lemma matchHandle_sound description h :
  matchHandle description = Some h ->
  h <> [] /\ Forall (fun c => isHandleChar c = true) h.
Proof.
  induction description as [|c description IH]; cbn [matchHandle].
  - destruct (handleAt []) eqn:E; [|discriminate].
    intros [= <-]. now apply (handleAt_sound []).
  - destruct (handleAt (c :: description)) as [h'|] eqn:E; [|exact IH].
    intros [= <-]. now apply (handleAt_sound (c :: description)).
Qed.

Lemma reelIdAt_sound s r :
  reelIdAt s = Some r ->
  r <> [] /\ Forall (fun c => isReelIdChar c = true) r
  /\ exists post, s = lit "reel/" ++ r ++ post.
Proof.
  unfold reelIdAt. destruct (startsWith s (lit "reel/")) eqn:Es; [|discriminate].
  apply startsWith_spec in Es as [rest ->].
  change (skipn 5 (lit "reel/" ++ rest)) with rest.
  destruct (truthy (takeWhile isReelIdChar rest)) eqn:Et; [|discriminate].
  intros [= <-]. split; [now apply truthy_spec | split].
  - apply takeWhile_Forall.
  - destruct (takeWhile_prefix isReelIdChar rest) as [post E].
    exists post. now rewrite <- E.
Qed.

Lemma matchReelId_sound url r :
  matchReelId url = Some r ->
  r <> [] /\ Forall (fun c => isReelIdChar c = true) r
  /\ isSubstring (lit "reel/" ++ r) url.
Proof.
  induction url as [|c url IH]; cbn [matchReelId].
  - destruct (reelIdAt []) eqn:E; [|discriminate].
    intros [= <-]. apply reelIdAt_sound in E as [? [? [post E]]].
    destruct post; discriminate.
  - destruct (reelIdAt (c :: url)) as [r'|] eqn:E.
    + intros [= <-]. apply reelIdAt_sound in E as [Hne [Hall [post E]]].
      split; [exact Hne | split; [exact Hall|]].
      exists [], post. rewrite E. exact (app_assoc _ _ _).
    + intros H. apply IH in H as [Hne [Hall [pre [post ->]]]].
      split; [exact Hne | split; [exact Hall|]]. now exists (c :: pre), post.
Qed.

Lemma handle_chars_not_white c : isHandleChar c = true -> isWhiteSpace c = false.
Proof.
  intros H. apply letters_not_white. unfold isHandleChar in H.
  rewrite !orb_true_iff, !andb_true_iff, !N.leb_le, !N.eqb_eq in H. lia.
Qed.

Section MetadataFacts.
Context {casing : Casing}.

(** X23. When no usable metadata comes back (a link to neither platform, the
    YouTube endpoint unavailable, the Instagram endpoint unavailable or its
    data without a title) the fetched title is one of the two placeholders
    [updateEnrichment] recognizes; so a suggested title, when the enrichment
    brings one, replaces it. *)
Theorem fetchMetadata_placeholder_title
  (url random : jsstring) (youtube : YouTubeFetch) (instagram : InstagramFetch) :
  getPlatform url = UNKNOWN
  \/ (getPlatform url = YOUTUBE /\ youtube = YouTubeUnavailable)
  \/ (getPlatform url = INSTAGRAM
      /\ (instagram = InstagramUnavailable
          \/ exists data, instagram = InstagramData data
               /\ (Microlink.title data = None
                   \/ Microlink.title data = Some []))) ->
  knownPlaceholder (Metadata.title (fetchMetadata url random youtube instagram))
  /\ forall skeleton aiData suggested,
       Enrichment.suggestedTitle aiData = Some suggested -> suggested <> [] ->
       Item.title
         (updatedItem
            (metaItem skeleton (fetchMetadata url random youtube instagram))
            aiData)
       = suggested.
Proof.
  intros H.
  assert (Hp : knownPlaceholder
                 (Metadata.title (fetchMetadata url random youtube instagram))).
  { unfold fetchMetadata, knownPlaceholder.
    destruct H as [-> | [[-> ->] | [-> [-> | [data [-> Ht]]]]]];
      cbn [Metadata.title Fetched.title fetchYouTubeMetadata
           fetchInstagramMetadata]; try (now right); try (now left).
    left. destruct Ht as [-> | ->]; reflexivity. }
  split; [exact Hp|].
  intros skeleton aiData suggested Hs Hne. cbn [updatedItem metaItem Item.title].
  rewrite Hs. apply isPlaceholderTitle_spec in Hp. apply truthy_spec in Hne.
  now rewrite Hp, Hne.
Qed.

(** X24. The creator of fetched metadata is always an "@" handle; for an Instagram
    link the handle holds no white space. *)
Theorem fetchMetadata_creator_handle
  (url random : jsstring) (youtube : YouTubeFetch) (instagram : InstagramFetch) :
  exists handle,
    Metadata.creator (fetchMetadata url random youtube instagram)
    = lit "@" ++ handle
    /\ (getPlatform url = INSTAGRAM ->
        Forall (fun c => isWhiteSpace c = false) handle).
Proof.
  unfold fetchMetadata. destruct (getPlatform url);
    cbn [Metadata.creator Fetched.creator].
  - unfold fetchInstagramMetadata. destruct instagram as [|data].
    + exists (lit "instagram_user"). split; [reflexivity|].
      intros _. repeat constructor.
    + cbn [Fetched.creator].
      destruct (matchHandle _) as [h|] eqn:Eh.
      * exists h. split; [reflexivity|]. intros _.
        apply matchHandle_sound in Eh as [_ Hall].
        eapply List.Forall_impl; [|exact Hall].
        intros c. apply handle_chars_not_white.
      * destruct (Microlink.author data) as [author|];
          [destruct (truthy author)|].
        -- eexists. split; [reflexivity|]. intros _.
           unfold removeWhiteSpace. apply List.Forall_forall. intros c Hc.
           apply filter_In in Hc as [_ Hc]. now apply negb_true_iff in Hc.
        -- exists (lit "instagram_user"). split; [reflexivity|].
           intros _. repeat constructor.
        -- exists (lit "instagram_user"). split; [reflexivity|].
           intros _. repeat constructor.
  - destruct youtube as [|title author thumb]; cbn [fetchYouTubeMetadata].
    + exists (lit "analyzing"). split; [reflexivity | discriminate].
    + eexists. split; [reflexivity | discriminate].
  - exists (lit "analyzing"). split; [reflexivity | discriminate].
Qed.

(** X25. When the Instagram endpoint is unavailable the thumbnail is the
    placeholder image seeded with the reel id of the link, a non-empty run of
    characters other than "/" and "?" that follows "reel/" in the link, or
    seeded with "Reel" when the link has no such id. *)
Theorem instagram_fallback_thumbnail (url random : jsstring)
  (youtube : YouTubeFetch) :
  getPlatform url = INSTAGRAM ->
  exists reelId,
    Metadata.thumbnail
      (fetchMetadata url random youtube InstagramUnavailable)
    = picsum reelId
    /\ reelId <> []
    /\ Forall (fun c => c <> 47%N /\ c <> 63%N) reelId
    /\ (isSubstring (lit "reel/" ++ reelId) url
        \/ (matchReelId url = None /\ reelId = lit "Reel")).
Proof.
  intros Hp. unfold fetchMetadata. rewrite Hp.
  cbn [fetchInstagramMetadata Metadata.thumbnail Fetched.thumbnail].
  destruct (matchReelId url) as [r|] eqn:E.
  - apply matchReelId_sound in E as [Hne [Hall Hsub]].
    exists r. split; [reflexivity | split; [exact Hne | split; [|now left]]].
    eapply List.Forall_impl; [|exact Hall]. intros c Hc.
    unfold isReelIdChar in Hc. apply negb_true_iff, orb_false_iff in Hc.
    rewrite !N.eqb_neq in Hc. exact Hc.
  - exists (lit "Reel"). split; [reflexivity | split; [discriminate|]].
    split; [|now right]. repeat constructor; discriminate.
Qed.

End MetadataFacts.

(* ===================================================================== *)
(** * The limit after the ranking *)
(* ===================================================================== *)

(** X9. The limit cuts the ranked list from its end: an item that is returned
    never ranks after an item that the limit leaves out. *)
Theorem limit_keeps_best (m : SortBy)
  (searchIntent : option SearchIntentResponse) (items : list SavedItem)
  (i j : nat) (a b : SavedItem) :
  limitStage searchIntent (rankStage m items) !! i = Some a ->
  rankStage m items !! j = Some b ->
  (length (limitStage searchIntent (rankStage m items)) <= j)%nat ->
  compareRank m a b <= 0.
Proof.
  intros Ha Hb Hj.
  destruct (limitStage_take searchIntent (rankStage m items)) as [k [E _]].
  rewrite E in Ha, Hj.
  pose proof (lookup_lt_Some _ _ _ Ha) as Hi.
  apply (sorted_precedes (fun a b => compareRank m a b <= 0)
           (rankStage m items) a b);
    [apply rankStage_sorted_rank|].
  exists i, j. split; [lia | split; [|exact Hb]].
  rewrite lookup_take_Some in Ha. tauto.
Qed.

Section QueryText.
Context {casing : Casing}.

(** X10. Neither the case of the query nor white space around it changes the
    result: the pipeline returns the same list for the query lower-cased and
    trimmed (lower-casing being idempotent and commuting with trimming). *)
Theorem query_case_and_padding_ignored
  (items : list SavedItem) (searchQuery activeFilter : jsstring)
  (searchIntent : option SearchIntentResponse) :
  (forall s, toLowerCase (toLowerCase s) = toLowerCase s) ->
  (forall s, toLowerCase (trim s) = trim (toLowerCase s)) ->
  filteredItems items (toLowerCase (trim searchQuery)) activeFilter searchIntent
  = filteredItems items searchQuery activeFilter searchIntent.
Proof.
  intros Hlow Htrim. unfold filteredItems.
  now rewrite !Htrim, Hlow, trim_idempotent.
Qed.

End QueryText.

(* ===================================================================== *)
(** * These properties at concrete inputs *)
(* ===================================================================== *)

Section ConcreteMore.
#[local] Existing Instance ecma_casing.

Lemma rankStage_second_pass_decides_witness :
  isChronological SequenceDesc = false
  /\ rankStage SequenceDesc
       [reel "1" "One" "Food" [] 100 2 0; reel "2" "Two" "Food" [] 300 2 0;
        reel "3" "Three" "Food" [] 200 7 0]
     = sort (compareStable SequenceDesc)
         [reel "1" "One" "Food" [] 100 2 0; reel "2" "Two" "Food" [] 300 2 0;
          reel "3" "Three" "Food" [] 200 7 0].
Proof.
  split; [reflexivity|].
  exact (rankStage_second_pass_decides SequenceDesc _ eq_refl).
Defined.

Lemma trimmed_query_splits_clean_witness :
  trim (lit "  last   finance reel ") <> []
  /\ queryWords (trim (lit "  last   finance reel "))
     = [lit "last"; lit "finance"; lit "reel"].
Proof.
  assert (H : trim (lit "  last   finance reel ") <> []).
  { vm_compute. discriminate. }
  split; [exact H|].
  rewrite (trimmed_query_splits_clean _ H). vm_compute. reflexivity.
Defined.

Lemma save_sentinel_fresh_number_witness :
  Item.sequenceNumber (reel "b" "Two" "Food" [] 200 (-1) 0) = -1
  /\ 1 <= Item.sequenceNumber
            (fst (save (reel "b" "Two" "Food" [] 200 (-1) 0)
                    (saveItem (reel "a" "One" "Food" [] 100 (-5) 0) ∅)))
  /\ Item.sequenceNumber (reel "a" "One" "Food" [] 100 (-5) 0)
     < Item.sequenceNumber
         (fst (save (reel "b" "Two" "Food" [] 200 (-1) 0)
                 (saveItem (reel "a" "One" "Food" [] 100 (-5) 0) ∅))).
Proof.
  destruct (save_sentinel_fresh_number
              (saveItem (reel "a" "One" "Food" [] 100 (-5) 0) ∅)
              (reel "b" "Two" "Food" [] 200 (-1) 0) eq_refl) as [H1 [H2 _]].
  split; [reflexivity | split; [exact H1|]].
  apply (H2 (lit "a")). apply lookup_insert_eq.
Defined.

Lemma sequence_reused_after_delete_witness :
  Item.sequenceNumber (reel "b" "Two" "Food" [] 200 (-1) 0) = -1
  /\ Item.sequenceNumber (reel "c" "Three" "Food" [] 300 (-1) 0) = -1
  /\ saveItem (reel "a" "One" "Food" [] 100 3 0) ∅ !! lit "b" = None
  /\ Item.sequenceNumber
       (fst (save (reel "c" "Three" "Food" [] 300 (-1) 0)
               (deleteItem (lit "b")
                  (snd (save (reel "b" "Two" "Food" [] 200 (-1) 0)
                          (saveItem (reel "a" "One" "Food" [] 100 3 0) ∅))))))
     = Item.sequenceNumber
         (fst (save (reel "b" "Two" "Food" [] 200 (-1) 0)
                 (saveItem (reel "a" "One" "Food" [] 100 3 0) ∅))).
Proof.
  assert (H : saveItem (reel "a" "One" "Food" [] 100 3 0) ∅ !! lit "b" = None).
  { unfold saveItem. rewrite lookup_insert_ne by discriminate.
    apply lookup_empty. }
  split; [reflexivity | split; [reflexivity | split; [exact H|]]].
  exact (proj2 (sequence_reused_after_delete _
                  (reel "b" "Two" "Food" [] 200 (-1) 0)
                  (reel "c" "Three" "Food" [] 300 (-1) 0) eq_refl eq_refl H)).
Defined.

Lemma updateEnrichment_frame_witness :
  keyed (saveItem (reel "a" "Instagram Reel" "Uncategorized" [] 100 1 0) ∅)
  /\ dom (updateEnrichment (lit "a")
            (Enrichment.mk [lit "pasta"] (lit "Food") (lit "A pasta recipe.")
               None None)
            (saveItem (reel "a" "Instagram Reel" "Uncategorized" [] 100 1 0) ∅))
     = dom (saveItem (reel "a" "Instagram Reel" "Uncategorized" [] 100 1 0) ∅).
Proof.
  assert (Hk : keyed (saveItem (reel "a" "Instagram Reel" "Uncategorized"
                                  [] 100 1 0) ∅)) by apply store_one_keyed.
  split; [exact Hk|].
  exact (proj1 (updateEnrichment_frame _ (lit "a") _ Hk)).
Defined.

Lemma updateEnrichment_idempotent_witness :
  keyed (saveItem (reel "a" "Instagram Reel" "Uncategorized"
                     [lit "reel"] 100 1 0) ∅)
  /\ updateEnrichment (lit "a")
       (Enrichment.mk [lit "pasta"; lit "reel"] (lit "Food")
          (lit "A pasta recipe.") (Some (lit "Capturing...")) (Some 0))
       (updateEnrichment (lit "a")
          (Enrichment.mk [lit "pasta"; lit "reel"] (lit "Food")
             (lit "A pasta recipe.") (Some (lit "Capturing...")) (Some 0))
          (saveItem (reel "a" "Instagram Reel" "Uncategorized"
                       [lit "reel"] 100 1 0) ∅))
     = updateEnrichment (lit "a")
         (Enrichment.mk [lit "pasta"; lit "reel"] (lit "Food")
            (lit "A pasta recipe.") (Some (lit "Capturing...")) (Some 0))
         (saveItem (reel "a" "Instagram Reel" "Uncategorized"
                      [lit "reel"] 100 1 0) ∅).
Proof.
  assert (Hk : keyed (saveItem (reel "a" "Instagram Reel" "Uncategorized"
                                  [lit "reel"] 100 1 0) ∅))
    by apply store_one_keyed.
  split; [exact Hk|].
  exact (updateEnrichment_idempotent _ (lit "a") _ Hk).
Defined.

Lemma capture_outcome_witness :
  keyed (saveItem (reel "a" "One" "Food" [] 100 3 0) ∅)
  /\ exists item,
       handleAddContent (lit "t1") (lit "https://www.instagram.com/reel/Cx1/")
         1000
         (Resolved (fetchMetadata (lit "https://www.instagram.com/reel/Cx1/")
                      (lit "0.42") YouTubeUnavailable InstagramUnavailable))
         Rejected
         (saveItem (reel "a" "One" "Food" [] 100 3 0) ∅)
       = <[lit "t1" := item]> (saveItem (reel "a" "One" "Food" [] 100 3 0) ∅)
       /\ Item.sequenceNumber item = 4
       /\ Item.isEnriching item = Some false
       /\ Item.title item = lit "Instagram Reel"
       /\ Item.thumbnail item = lit "https://picsum.photos/seed/Cx1/400/711".
Proof.
  assert (Hk : keyed (saveItem (reel "a" "One" "Food" [] 100 3 0) ∅))
    by apply store_one_keyed.
  split; [exact Hk|].
  destruct (capture_outcome _ (lit "t1")
              (lit "https://www.instagram.com/reel/Cx1/") 1000
              (Resolved (fetchMetadata
                           (lit "https://www.instagram.com/reel/Cx1/")
                           (lit "0.42") YouTubeUnavailable InstagramUnavailable))
              Rejected Hk)
    as [item [E [_ [_ [_ [Hs [He [_ [_ Hf]]]]]]]]].
  exists item. split; [exact E | split; [|split; [exact He|]]].
  - rewrite Hs. vm_compute. reflexivity.
  - destruct (Hf _ eq_refl eq_refl) as [Ht _]. split; [exact Ht|].
    assert (E1 := E). rewrite (handleAddContent_store _ _ _ _ _ _ Hk) in E1.
    apply (f_equal (fun m : Store => m !! lit "t1")) in E1.
    rewrite !lookup_insert_eq in E1. injection E1 as <-. reflexivity.
Defined.


Lemma every_button_selects_witness :
  (forall s, toLowerCase (toLowerCase s) = toLowerCase s)
  /\ In {| buttonId := lit "finance"; buttonLabel := lit "Finance" |}
       (dynamicFilters [reel "1" "Bitcoin basics" "Crypto Trading" [] 100 1 0;
                        reel "2" "Pasta night" "Recipes" [] 200 2 500])
  /\ exists item,
       In item (categoryStage (lit "finance")
                  [reel "1" "Bitcoin basics" "Crypto Trading" [] 100 1 0;
                   reel "2" "Pasta night" "Recipes" [] 200 2 500]).
Proof.
  assert (Hb : In {| buttonId := lit "finance"; buttonLabel := lit "Finance" |}
                 (dynamicFilters
                    [reel "1" "Bitcoin basics" "Crypto Trading" [] 100 1 0;
                     reel "2" "Pasta night" "Recipes" [] 200 2 500])).
  { right. left. reflexivity. }
  split; [exact lower_lower | split; [exact Hb|]].
  destruct (every_button_selects _ _ lower_lower Hb) as [E | [item [_ [_ H]]]];
    [discriminate | now exists item].
Defined.

Lemma unenriched_capture_adds_no_button_witness :
  keyed (saveItem (reel "a" "One" "Food" [] 100 3 0) ∅)
  /\ saveItem (reel "a" "One" "Food" [] 100 3 0) ∅ !! lit "t1" = None
  /\ sameButtons
       (snd (save (skeletonItem (lit "t1") (lit "https://youtu.be/xyz") 2000)
               (saveItem (reel "a" "One" "Food" [] 100 3 0) ∅)))
       (saveItem (reel "a" "One" "Food" [] 100 3 0) ∅)
  /\ sameButtons
       (handleAddContent (lit "t1") (lit "https://youtu.be/xyz") 2000
          (Resolved
             (fetchMetadata (lit "https://youtu.be/xyz") (lit "0.42")
                (YouTubeData (lit "Sourdough at home") (lit "Bread Lab")
                   (lit "https://i.ytimg.com/vi/xyz/hq.jpg"))
                InstagramUnavailable))
          Rejected (saveItem (reel "a" "One" "Food" [] 100 3 0) ∅))
       (saveItem (reel "a" "One" "Food" [] 100 3 0) ∅).
Proof.
  assert (Hk : keyed (saveItem (reel "a" "One" "Food" [] 100 3 0) ∅))
    by apply store_one_keyed.
  assert (H : saveItem (reel "a" "One" "Food" [] 100 3 0) ∅ !! lit "t1" = None).
  { unfold saveItem. rewrite lookup_insert_ne by discriminate.
    apply lookup_empty. }
  destruct (unenriched_capture_adds_no_button _ (lit "t1")
              (lit "https://youtu.be/xyz") 2000 (lit "0.42")
              (YouTubeData (lit "Sourdough at home") (lit "Bread Lab")
                 (lit "https://i.ytimg.com/vi/xyz/hq.jpg"))
              InstagramUnavailable Rejected Hk H) as [H1 [_ [_ H4]]].
  split; [exact Hk | split; [exact H | split; [exact H1 | exact H4]]].
Defined.

Lemma fetchMetadata_placeholder_title_witness :
  getPlatform (lit "https://youtu.be/abc") = YOUTUBE
  /\ Item.title
       (updatedItem
          (metaItem (skeletonItem (lit "t1") (lit "https://youtu.be/abc") 1000)
             (fetchMetadata (lit "https://youtu.be/abc") (lit "0.42")
                YouTubeUnavailable InstagramUnavailable))
          (Enrichment.mk [lit "bread"] (lit "Food") (lit "Baking bread.")
             (Some (lit "Sourdough at home")) None))
     = lit "Sourdough at home".
Proof.
  split; [reflexivity|].
  apply (fetchMetadata_placeholder_title (lit "https://youtu.be/abc")
           (lit "0.42") YouTubeUnavailable InstagramUnavailable).
  - right. left. split; reflexivity.
  - reflexivity.
  - discriminate.
Defined.

Lemma instagram_fallback_thumbnail_witness :
  getPlatform (lit "https://www.instagram.com/reel/Cx1/?igshid=9") = INSTAGRAM
  /\ exists reelId,
       Metadata.thumbnail
         (fetchMetadata (lit "https://www.instagram.com/reel/Cx1/?igshid=9")
            (lit "0.42") YouTubeUnavailable InstagramUnavailable)
       = picsum reelId
       /\ Forall (fun c => c <> 47%N /\ c <> 63%N) reelId.
Proof.
  split; [reflexivity|].
  destruct (instagram_fallback_thumbnail
              (lit "https://www.instagram.com/reel/Cx1/?igshid=9")
              (lit "0.42") YouTubeUnavailable eq_refl)
    as [reelId [E [_ [H _]]]].
  now exists reelId.
Defined.

Lemma intent_fallback_up_to_case_ascii_witness :
  isAscii (Item.topic (reel "a" "Budget basics" "Finance" [] 100 1 0))
  /\ Forall isAscii [lit "money"]
  /\ ~ Forall (fun w => isSubstring w
                 (searchableText (reel "a" "Budget basics" "Finance" [] 100 1 0)))
         (queryWords (lit "zzz"))
  /\ claimedFallbackIgnoreCase
       (Intent.mk [] [lit "money"] (lit "zzz") None None)
       (reel "a" "Budget basics" "Finance" [] 100 1 0).
Proof.
  assert (H1 : isAscii (Item.topic
                          (reel "a" "Budget basics" "Finance" [] 100 1 0))).
  { repeat constructor. }
  assert (H2 : Forall isAscii [lit "money"]).
  { repeat constructor. }
  assert (H3 : ~ Forall (fun w => isSubstring w
                 (searchableText (reel "a" "Budget basics" "Finance" [] 100 1 0)))
         (queryWords (lit "zzz"))).
  { intros H. apply forallb_includes in H. vm_compute in H. discriminate. }
  split; [exact H1 | split; [exact H2 | split; [exact H3|]]].
  apply (intent_fallback_up_to_case_ascii
           [reel "a" "Budget basics" "Finance" [] 100 1 0] (lit "zzz")
           (Intent.mk [] [lit "money"] (lit "zzz") None None)
           (reel "a" "Budget basics" "Finance" [] 100 1 0) H1 H2).
  - left. reflexivity.
  - exact H3.
  - vm_compute. left. reflexivity.
Defined.

Lemma limit_keeps_best_witness :
  limitStage (Some (Intent.mk [] [] (lit "top one") (Some EngagementDesc)
                      (Some 1)))
    (rankStage EngagementDesc
       [reel "1" "One" "Food" [] 400 1 10; reel "2" "Two" "Food" [] 500 2 90])
  !! 0%nat
  = Some (reel "2" "Two" "Food" [] 500 2 90)
  /\ rankStage EngagementDesc
       [reel "1" "One" "Food" [] 400 1 10; reel "2" "Two" "Food" [] 500 2 90]
     !! 1%nat
     = Some (reel "1" "One" "Food" [] 400 1 10)
  /\ compareRank EngagementDesc (reel "2" "Two" "Food" [] 500 2 90)
       (reel "1" "One" "Food" [] 400 1 10) <= 0.
Proof.
  split; [reflexivity | split; [reflexivity|]].
  apply (limit_keeps_best EngagementDesc
           (Some (Intent.mk [] [] (lit "top one") (Some EngagementDesc)
                    (Some 1)))
           [reel "1" "One" "Food" [] 400 1 10;
            reel "2" "Two" "Food" [] 500 2 90] 0 1).
  - reflexivity.
  - reflexivity.
  - vm_compute. lia.
Defined.

Lemma query_case_and_padding_ignored_witness :
  (forall s, toLowerCase (toLowerCase s) = toLowerCase s)
  /\ (forall s, toLowerCase (trim s) = trim (toLowerCase s))
  /\ filteredItems [reel "1" "Bitcoin basics" "Crypto Trading" [] 100 1 0;
                    reel "2" "Pasta night" "Recipes" [] 200 2 500]
       (lit "pasta") (lit "all") None
     = filteredItems [reel "1" "Bitcoin basics" "Crypto Trading" [] 100 1 0;
                      reel "2" "Pasta night" "Recipes" [] 200 2 500]
         (lit "  PASTA ") (lit "all") None.
Proof.
  split; [exact lower_lower | split; [exact lower_trim|]].
  exact (query_case_and_padding_ignored _ (lit "  PASTA ") (lit "all") None
           lower_lower lower_trim).
Defined.

(** A topic that normalizes to "All" gives a second button with the label
    and the id of the first. *)
Example dynamicFilters_second_all :
  dynamicFilters [reel "1" "Everything at once" "all" [] 100 1 0;
                  reel "2" "Pasta night" "Recipes" [] 200 2 500]
  = [{| buttonId := lit "all"; buttonLabel := lit "All" |};
     {| buttonId := lit "all"; buttonLabel := lit "All" |};
     {| buttonId := lit "food"; buttonLabel := lit "Food" |}].
Proof. vm_compute. reflexivity. Qed.

End ConcreteMore.
